(** * DDL job scheduling and schema validation

    A shallow embedding of two source files of the repository:

    - [domain/schema_validator.go]: the per-node schema validator
      ([Update], [Check], [Stop], [Restart], [Reset], [enqueue], ...);
    - the DDL worker (package [ddl]): [buildJobDependence], [addDDLJob],
      [finishDDLJob], [handleDDLJobQueue], [runDDLJob],
      [waitSchemaChanged], [updateSchemaVersion].

    Go's [int64] values are integers in [Z]; where the source does
    arithmetic on them the wrap-around is written with [wrap64].  Slices
    are lists, Go maps keyed by an ID are [gmap Z].  A pointer to a job
    that a function mutates is modelled by returning the updated job. *)

From stdpp Require Import base numbers list option strings sorting gmap.

Local Open Scope Z_scope.

(** ** Machine integers *)

(** Two's-complement reduction of an integer to the [int64] range. *)
Definition wrap64 (z : Z) : Z := (z + 2 ^ 63) `mod` 2 ^ 64 - 2 ^ 63.

Definition int64_range (z : Z) : Prop := - 2 ^ 63 <= z < 2 ^ 63.

(** [time.Duration] counts nanoseconds. *)
Definition Millisecond : Z := 1000000.
Definition Second : Z := 1000000000.

(** ** The schema validator ([domain/schema_validator.go]) *)

Module Validator.

Inductive checkResult : Type :=
| ResultSucc
| ResultFail
| ResultUnknown.

#[global] Instance checkResult_eq_dec : EqDecision checkResult.
Proof. solve_decision. Defined.

Record deltaSchemaInfo : Type := mkDelta {
  schemaVersion : Z;
  relatedTableIDs : list Z
}.

#[global] Instance deltaSchemaInfo_eq_dec : EqDecision deltaSchemaInfo.
Proof. solve_decision. Defined.

(** What the validator uses of Go's [time] package and of
    [oracle.GetTimeFromTS] (package [store/tikv/oracle]): instants, the
    conversion of a timestamp to an instant, [Time.Add] and
    [Time.After].  [time.Duration] is an [int64] count of nanoseconds. *)
Class TimeOps : Type := {
  Time : Type;
  zeroTime : Time;
  GetTimeFromTS : Z -> Time;
  timeAdd : Time -> Z -> Time;
  timeAfter : Time -> Time -> bool
}.

Section WithTime.
Context `{TimeOps}.

(** [maxNumberOfDiffsToLoad] is a constant of package [domain] that
    another file declares; the validator only compares a length with
    it. *)
Variable maxNumberOfDiffsToLoad : nat.

Record schemaValidator : Type := mkValidator {
  isStarted : bool;
  lease : Z;
  latestSchemaVer : Z;
  latestSchemaExpire : Time;
  deltaSchemaInfos : list deltaSchemaInfo
}.

Definition NewSchemaValidator (lease : Z) : schemaValidator :=
  {| isStarted := true;
     lease := lease;
     latestSchemaVer := 0;
     latestSchemaExpire := zeroTime;
     deltaSchemaInfos := [] |}.

Definition IsStarted (s : schemaValidator) : bool := isStarted s.

Definition Stop (s : schemaValidator) : schemaValidator :=
  {| isStarted := false;
     lease := lease s;
     latestSchemaVer := 0;
     latestSchemaExpire := latestSchemaExpire s;
     deltaSchemaInfos := [] |}.

Definition Restart (s : schemaValidator) : schemaValidator :=
  {| isStarted := true;
     lease := lease s;
     latestSchemaVer := latestSchemaVer s;
     latestSchemaExpire := latestSchemaExpire s;
     deltaSchemaInfos := deltaSchemaInfos s |}.

Definition Reset (s : schemaValidator) : schemaValidator :=
  {| isStarted := true;
     lease := lease s;
     latestSchemaVer := 0;
     latestSchemaExpire := latestSchemaExpire s;
     deltaSchemaInfos := [] |}.

(** [enqueue]: append, then drop the first entry when the length exceeds
    the maximum ([s.deltaSchemaInfos[1:]]). *)
Definition enqueue (s : schemaValidator) (schemaVersion : Z) (relatedTableIDs : list Z)
  : schemaValidator :=
  let q := deltaSchemaInfos s ++ [mkDelta schemaVersion relatedTableIDs] in
  {| isStarted := isStarted s;
     lease := lease s;
     latestSchemaVer := latestSchemaVer s;
     latestSchemaExpire := latestSchemaExpire s;
     deltaSchemaInfos := if (maxNumberOfDiffsToLoad <? length q)%nat then drop 1 q else q |}.

Definition Update (s : schemaValidator) (leaseGrantTS oldVer currVer : Z)
    (changedTableIDs : list Z) : schemaValidator :=
  if negb (isStarted s) then s
  else
    let leaseGrantTime := GetTimeFromTS leaseGrantTS in
    let leaseExpire := timeAdd leaseGrantTime (wrap64 (lease s - Millisecond)) in
    let s1 := {| isStarted := isStarted s;
                 lease := lease s;
                 latestSchemaVer := currVer;
                 latestSchemaExpire := leaseExpire;
                 deltaSchemaInfos := deltaSchemaInfos s |} in
    if negb (currVer =? oldVer) then enqueue s1 currVer changedTableIDs else s1.

(** [hasRelatedTableID]: the two nested loops, the outer one over
    [updateTableIDs]. *)
Definition hasRelatedTableID (relatedTableIDs updateTableIDs : list Z) : bool :=
  existsb (fun tblID => existsb (fun relatedTblID => tblID =? relatedTblID) relatedTableIDs)
          updateTableIDs.

(** The loop of [findNewerDeltas]: [n] is [i + 1] for the loop variable
    [i], which runs from [len(q) - 1] down while [q[i].schemaVersion >
    currVer]; the result is the last value given to [pos]. *)
Fixpoint findNewerDeltas_loop (q : list deltaSchemaInfo) (currVer : Z) (n pos : nat) : nat :=
  match n with
  | O => pos
  | S i =>
      match q !! i with
      | Some d => if currVer <? schemaVersion d
                  then findNewerDeltas_loop q currVer i i
                  else pos
      | None => pos
      end
  end.

Definition findNewerDeltas (s : schemaValidator) (currVer : Z) : list deltaSchemaInfo :=
  let q := deltaSchemaInfos s in
  drop (findNewerDeltas_loop q currVer (length q) (length q)) q.

Definition isRelatedTablesChanged (s : schemaValidator) (currVer : Z) (tableIDs : list Z) : bool :=
  if (length (deltaSchemaInfos s) =? 0)%nat then true
  else
    let newerDeltas := findNewerDeltas s currVer in
    if (length newerDeltas =? length (deltaSchemaInfos s))%nat then true
    else existsb (fun item => hasRelatedTableID (relatedTableIDs item) tableIDs) newerDeltas.

Definition Check (s : schemaValidator) (txnTS schemaVer : Z) (relatedTableIDs : list Z)
  : checkResult :=
  if negb (isStarted s) then ResultUnknown
  else if lease s =? 0 then ResultSucc
  else if schemaVer <? latestSchemaVer s then
    if (length relatedTableIDs =? 0)%nat then ResultFail
    else if isRelatedTablesChanged s schemaVer relatedTableIDs then ResultFail
    else ResultSucc
  else
    let t := GetTimeFromTS txnTS in
    if timeAfter t (latestSchemaExpire s) then ResultUnknown else ResultSucc.

End WithTime.

(** *** Vocabulary of the specification *)

(** [l] is the longest suffix of [q] all of whose entries have a version
    strictly greater than [v]: the deltas that a scan from the newest end
    backward collects while the entries are newer than [v]. *)
Definition newer_suffix (q : list deltaSchemaInfo) (v : Z) (l : list deltaSchemaInfo) : Prop :=
  l `suffix_of` q /\
  Forall (fun d => v < schemaVersion d) l /\
  forall l', l' `suffix_of` q -> Forall (fun d => v < schemaVersion d) l' ->
             (length l' <= length l)%nat.

(** Some table of [ids] appears in the delta [d]. *)
Definition touches (ids : list Z) (d : deltaSchemaInfo) : Prop :=
  exists t, t ∈ ids /\ t ∈ relatedTableIDs d.

(** The versions of a delta queue never decrease from old to new. *)
Definition versions_ascending (q : list deltaSchemaInfo) : Prop :=
  forall i j d e, (i <= j)%nat -> q !! i = Some d -> q !! j = Some e ->
                  schemaVersion d <= schemaVersion e.

(** One call of [Update], and a run of such calls. *)
Record updateCall : Type := mkUpdateCall {
  u_leaseGrantTS : Z;
  u_oldVer : Z;
  u_currVer : Z;
  u_changedTableIDs : list Z
}.

(** The entries that a run of [Update] calls appends: one for each call
    whose two versions differ. *)
Definition appended (us : list updateCall) : list deltaSchemaInfo :=
  omap (fun u => if u_currVer u =? u_oldVer u then None
                 else Some (mkDelta (u_currVer u) (u_changedTableIDs u))) us.

(** The last [n] elements of a list. *)
Definition lastn {A} (n : nat) (l : list A) : list A := drop (length l - n) l.

Section Runs.
Context `{TimeOps}.
Variable maxNumberOfDiffsToLoad : nat.

Definition runUpdates (s : schemaValidator) (us : list updateCall) : schemaValidator :=
  foldl (fun s u => Update maxNumberOfDiffsToLoad s (u_leaseGrantTS u) (u_oldVer u)
                      (u_currVer u) (u_changedTableIDs u)) s us.

End Runs.

End Validator.

(** ** Jobs and schema diffs (package [model] of the parser library) *)

Module Model.

(** The job types that the worker's dispatch names; [ActionOther] stands
    for every other value of the byte-sized type. *)
Inductive ActionType : Type :=
| ActionCreateSchema
| ActionModifySchemaCharsetAndCollate
| ActionDropSchema
| ActionCreateTable
| ActionCreateView
| ActionDropTable
| ActionDropView
| ActionDropTablePartition
| ActionTruncateTablePartition
| ActionAddColumn
| ActionDropColumn
| ActionModifyColumn
| ActionSetDefaultValue
| ActionAddIndex
| ActionDropIndex
| ActionRenameIndex
| ActionAddForeignKey
| ActionDropForeignKey
| ActionTruncateTable
| ActionRebaseAutoID
| ActionRenameTable
| ActionShardRowID
| ActionModifyTableComment
| ActionAddTablePartition
| ActionModifyTableCharsetAndCollate
| ActionRecoverTable
| ActionOther (code : Z).

#[global] Instance ActionType_eq_dec : EqDecision ActionType.
Proof. solve_decision. Defined.

Inductive JobState : Type :=
| JobStateNone
| JobStateRunning
| JobStateRollingback
| JobStateRollbackDone
| JobStateDone
| JobStateCancelled
| JobStateSynced
| JobStateCancelling.

#[global] Instance JobState_eq_dec : EqDecision JobState.
Proof. solve_decision. Defined.

Inductive SchemaStateT : Type :=
| StateNone
| StateDeleteOnly
| StateWriteOnly
| StateWriteReorganization
| StateDeleteReorganization
| StatePublic.

#[global] Instance SchemaState_eq_dec : EqDecision SchemaStateT.
Proof. solve_decision. Defined.

(** Go's [error] values that the worker tells apart, and the rest:
    [ErrTerror] is any other value of type [*terror.Error], [ErrPlain]
    any other error, and [ErrUnknownDDL] the DDL error of unknown code
    that [toTError] makes of an error that is no [*terror.Error]. *)
Inductive error : Type :=
| ErrEntryTooLarge
| DeadlineExceeded
| errInvalidDDLJob (tp : ActionType)
| errInvalidJobVersion (ver cur : Z)
| ErrTerror (code : Z)
| ErrPlain (code : Z)
| ErrUnknownDDL (cause : error).

#[global] Instance error_eq_dec : EqDecision error.
Proof. solve_decision. Defined.

(** The result of a Go function that returns a value and an error. *)
Inductive result (A : Type) : Type :=
| Ok (a : A)
| Err (e : error).
Arguments Ok {A} a.
Arguments Err {A} e.

Inductive ArgValue : Type :=
| ArgInt (z : Z)
| ArgString (s : string)
| ArgRaw (bytes : list Z).

(** [HistoryInfo]: the change-log payload of a job and its finish
    timestamp. *)
Record HistoryInfo : Type := mkHistoryInfo {
  Payload : list Z;
  FinishedTS : Z
}.

(** [HistoryInfo.Clean] drops the payload. *)
Definition Clean (h : HistoryInfo) : HistoryInfo :=
  {| Payload := []; FinishedTS := FinishedTS h |}.

Record Job : Type := mkJob {
  ID : Z;
  JobType : ActionType;
  SchemaID : Z;
  TableID : Z;
  State : JobState;
  SchemaState : SchemaStateT;
  Error : option error;
  ErrorCount : Z;
  DependencyID : Z;
  StartTS : Z;
  Version : Z;
  Query : string;
  RawArgs : option (list Z);
  Args : option (list ArgValue);
  BinlogInfo : HistoryInfo
}.

(** Assignments to one field of a job. *)
Definition set_ID (j : Job) (v : Z) : Job :=
  mkJob v (JobType j) (SchemaID j) (TableID j) (State j) (SchemaState j) (Error j) (ErrorCount j)
        (DependencyID j) (StartTS j) (Version j) (Query j) (RawArgs j) (Args j) (BinlogInfo j).

Definition set_State (j : Job) (v : JobState) : Job :=
  mkJob (ID j) (JobType j) (SchemaID j) (TableID j) v (SchemaState j) (Error j) (ErrorCount j)
        (DependencyID j) (StartTS j) (Version j) (Query j) (RawArgs j) (Args j) (BinlogInfo j).

Definition set_SchemaState (j : Job) (v : SchemaStateT) : Job :=
  mkJob (ID j) (JobType j) (SchemaID j) (TableID j) (State j) v (Error j) (ErrorCount j)
        (DependencyID j) (StartTS j) (Version j) (Query j) (RawArgs j) (Args j) (BinlogInfo j).

Definition set_Error (j : Job) (v : option error) : Job :=
  mkJob (ID j) (JobType j) (SchemaID j) (TableID j) (State j) (SchemaState j) v (ErrorCount j)
        (DependencyID j) (StartTS j) (Version j) (Query j) (RawArgs j) (Args j) (BinlogInfo j).

Definition set_ErrorCount (j : Job) (v : Z) : Job :=
  mkJob (ID j) (JobType j) (SchemaID j) (TableID j) (State j) (SchemaState j) (Error j) v
        (DependencyID j) (StartTS j) (Version j) (Query j) (RawArgs j) (Args j) (BinlogInfo j).

Definition set_DependencyID (j : Job) (v : Z) : Job :=
  mkJob (ID j) (JobType j) (SchemaID j) (TableID j) (State j) (SchemaState j) (Error j) (ErrorCount j)
        v (StartTS j) (Version j) (Query j) (RawArgs j) (Args j) (BinlogInfo j).

Definition set_StartTS (j : Job) (v : Z) : Job :=
  mkJob (ID j) (JobType j) (SchemaID j) (TableID j) (State j) (SchemaState j) (Error j) (ErrorCount j)
        (DependencyID j) v (Version j) (Query j) (RawArgs j) (Args j) (BinlogInfo j).

Definition set_Version (j : Job) (v : Z) : Job :=
  mkJob (ID j) (JobType j) (SchemaID j) (TableID j) (State j) (SchemaState j) (Error j) (ErrorCount j)
        (DependencyID j) (StartTS j) v (Query j) (RawArgs j) (Args j) (BinlogInfo j).

Definition set_Query (j : Job) (v : string) : Job :=
  mkJob (ID j) (JobType j) (SchemaID j) (TableID j) (State j) (SchemaState j) (Error j) (ErrorCount j)
        (DependencyID j) (StartTS j) (Version j) v (RawArgs j) (Args j) (BinlogInfo j).

Definition set_BinlogInfo (j : Job) (v : HistoryInfo) : Job :=
  mkJob (ID j) (JobType j) (SchemaID j) (TableID j) (State j) (SchemaState j) (Error j) (ErrorCount j)
        (DependencyID j) (StartTS j) (Version j) (Query j) (RawArgs j) (Args j) v.

Definition IsDone (j : Job) : bool := bool_decide (State j = JobStateDone).
Definition IsRollbackDone (j : Job) : bool := bool_decide (State j = JobStateRollbackDone).
Definition IsRollingback (j : Job) : bool := bool_decide (State j = JobStateRollingback).
Definition IsCancelling (j : Job) : bool := bool_decide (State j = JobStateCancelling).
Definition IsCancelled (j : Job) : bool := bool_decide (State j = JobStateCancelled).
Definition IsSynced (j : Job) : bool := bool_decide (State j = JobStateSynced).
Definition IsRunning (j : Job) : bool := bool_decide (State j = JobStateRunning).
Definition IsFinished (j : Job) : bool :=
  IsDone j || IsRollbackDone j || IsCancelled j.

Definition AddIndexStr : string := "add index".

(** [ActionType.String]: the name that the library gives a job type;
    the worker only compares it with [AddIndexStr]. *)
Definition ActionType_String (a : ActionType) : string :=
  match a with
  | ActionCreateSchema => "create schema"
  | ActionModifySchemaCharsetAndCollate => "modify schema charset and collate"
  | ActionDropSchema => "drop schema"
  | ActionCreateTable => "create table"
  | ActionCreateView => "create view"
  | ActionDropTable => "drop table"
  | ActionDropView => "drop view"
  | ActionDropTablePartition => "drop partition"
  | ActionTruncateTablePartition => "truncate partition"
  | ActionAddColumn => "add column"
  | ActionDropColumn => "drop column"
  | ActionModifyColumn => "modify column"
  | ActionSetDefaultValue => "set default value"
  | ActionAddIndex => AddIndexStr
  | ActionDropIndex => "drop index"
  | ActionRenameIndex => "rename index"
  | ActionAddForeignKey => "add foreign key"
  | ActionDropForeignKey => "drop foreign key"
  | ActionTruncateTable => "truncate table"
  | ActionRebaseAutoID => "rebase auto_increment ID"
  | ActionRenameTable => "rename table"
  | ActionShardRowID => "shard row ID"
  | ActionModifyTableComment => "modify table comment"
  | ActionAddTablePartition => "add partition"
  | ActionModifyTableCharsetAndCollate => "modify table charset and collate"
  | ActionRecoverTable => "recover table"
  | ActionOther _ => "none"
  end.

Record SchemaDiff : Type := mkSchemaDiff {
  diff_Version : Z;
  diff_Type : ActionType;
  diff_SchemaID : Z;
  diff_TableID : Z;
  diff_OldTableID : Z;
  diff_OldSchemaID : Z
}.

End Model.

(** ** The job queue store (package [meta], and [kv.RunInNewTxn])

    The worker's functions call the packages [meta] and [kv].  Their
    operations are modelled from the specification's description of the
    job queue store, on a record of the keys that the worker reads and
    writes. *)

Module Meta.
Import Model.

Inductive JobListKeyType : Type :=
| DefaultJobListKey
| AddIndexJobListKey.

#[global] Instance JobListKeyType_eq_dec : EqDecision JobListKeyType.
Proof. solve_decision. Defined.

(** The durable state: the two counters, the schema diffs by version,
    the two job queues (head first) and the history of jobs by ID. *)
Record Store : Type := mkStore {
  nextGlobalID : Z;
  globalSchemaVersion : Z;
  schemaDiffs : gmap Z SchemaDiff;
  defaultJobList : list Job;
  addIndexJobList : list Job;
  historyJobs : gmap Z Job
}.

Definition jobList (k : JobListKeyType) (s : Store) : list Job :=
  match k with
  | DefaultJobListKey => defaultJobList s
  | AddIndexJobListKey => addIndexJobList s
  end.

Definition set_jobList (k : JobListKeyType) (s : Store) (l : list Job) : Store :=
  match k with
  | DefaultJobListKey =>
      mkStore (nextGlobalID s) (globalSchemaVersion s) (schemaDiffs s) l (addIndexJobList s)
              (historyJobs s)
  | AddIndexJobListKey =>
      mkStore (nextGlobalID s) (globalSchemaVersion s) (schemaDiffs s) (defaultJobList s) l
              (historyJobs s)
  end.

(** A [*meta.Meta]: the transaction it wraps (its view of the store),
    the key of the job queue it works on, and the transaction's start
    timestamp. *)
Record Meta : Type := mkMeta {
  txn : Store;
  jobListKey : JobListKeyType;
  metaStartTS : Z
}.

Definition set_txn (t : Meta) (s : Store) : Meta :=
  {| txn := s; jobListKey := jobListKey t; metaStartTS := metaStartTS t |}.

Inductive MetaOp : Type :=
| OpGenGlobalID
| OpGenSchemaVersion
| OpSetSchemaDiff
| OpEnQueueDDLJob
| OpDeQueueDDLJob
| OpGetDDLJobByIdx
| OpUpdateDDLJob
| OpAddHistoryDDLJob
| OpGetHistoryDDLJob
| OpCommit.

(** What the key-value store decides: the error, if any, with which it
    answers an operation on a given view; the snapshot of a job queue
    that [GetAllDDLJobsInQueue] returns (its order is the store's); and
    the serialization of a job's arguments. *)
Class KVStore : Type := {
  kvErr : MetaOp -> Store -> option error;
  GetAllDDLJobsInQueue : Meta -> JobListKeyType -> result (list Job);
  marshalArgs : option (list ArgValue) -> option (list Z)
}.

Section Operations.
Context `{KVStore}.

(** Modelled from the spec: [meta.NewMeta], which is not among the
    sources; a handle on the transaction for one of the two queues. *)
Definition NewMeta (view : Store) (startTS : Z) (key : JobListKeyType) : Meta :=
  {| txn := view; jobListKey := key; metaStartTS := startTS |}.

(** Modelled from the spec: [GenGlobalID], which is not among the
    sources; a durable counter increment that returns the new value. *)
Definition GenGlobalID (t : Meta) : result (Z * Meta) :=
  match kvErr OpGenGlobalID (txn t) with
  | Some e => Err e
  | None =>
      let s := txn t in
      let id := nextGlobalID s + 1 in
      Ok (id, set_txn t (mkStore id (globalSchemaVersion s) (schemaDiffs s)
                           (defaultJobList s) (addIndexJobList s) (historyJobs s)))
  end.

(** Modelled from the spec: [GenSchemaVersion], which is not among the
    sources; it allocates the next version number by a durable counter
    increment. *)
Definition GenSchemaVersion (t : Meta) : result (Z * Meta) :=
  match kvErr OpGenSchemaVersion (txn t) with
  | Some e => Err e
  | None =>
      let s := txn t in
      let v := globalSchemaVersion s + 1 in
      Ok (v, set_txn t (mkStore (nextGlobalID s) v (schemaDiffs s)
                          (defaultJobList s) (addIndexJobList s) (historyJobs s)))
  end.

(** Modelled from the spec: [SetSchemaDiff], which is not among the
    sources; it writes the diff keyed by its version. *)
Definition SetSchemaDiff (t : Meta) (diff : SchemaDiff) : Meta * option error :=
  match kvErr OpSetSchemaDiff (txn t) with
  | Some e => (t, Some e)
  | None =>
      let s := txn t in
      (set_txn t (mkStore (nextGlobalID s) (globalSchemaVersion s)
                    (<[diff_Version diff := diff]> (schemaDiffs s))
                    (defaultJobList s) (addIndexJobList s) (historyJobs s)), None)
  end.

(** Modelled from the spec: [EnQueueDDLJob], which is not among the
    sources; the job is inserted at the tail of the handle's queue. *)
Definition EnQueueDDLJob (t : Meta) (job : Job) : Meta * option error :=
  match kvErr OpEnQueueDDLJob (txn t) with
  | Some e => (t, Some e)
  | None =>
      (set_txn t (set_jobList (jobListKey t) (txn t) (jobList (jobListKey t) (txn t) ++ [job])),
       None)
  end.

(** Modelled from the spec: [DeQueueDDLJob], which is not among the
    sources; it removes and returns the job at the head position (index
    0) of the handle's queue, or none. *)
Definition DeQueueDDLJob (t : Meta) : result (option Job * Meta) :=
  match kvErr OpDeQueueDDLJob (txn t) with
  | Some e => Err e
  | None =>
      match jobList (jobListKey t) (txn t) with
      | [] => Ok (None, t)
      | job :: rest => Ok (Some job, set_txn t (set_jobList (jobListKey t) (txn t) rest))
      end
  end.

(** Modelled from the spec: [GetDDLJobByIdx], which is not among the
    sources; the job at a position of the handle's queue, or none. *)
Definition GetDDLJobByIdx (t : Meta) (idx : nat) : result (option Job) :=
  match kvErr OpGetDDLJobByIdx (txn t) with
  | Some e => Err e
  | None => Ok (jobList (jobListKey t) (txn t) !! idx)
  end.

(** Modelled from the spec: [UpdateDDLJob], which is not among the
    sources; it updates the job at a position in place.  Without the
    flag the previously serialized argument bytes are kept, with it the
    arguments are serialized again.  A position outside the queue is an
    error. *)
Definition UpdateDDLJob (t : Meta) (idx : nat) (job : Job) (updateRawArgs : bool)
  : Meta * option error :=
  match kvErr OpUpdateDDLJob (txn t) with
  | Some e => (t, Some e)
  | None =>
      let q := jobList (jobListKey t) (txn t) in
      if bool_decide (idx < length q)%nat then
        let stored :=
          if updateRawArgs
          then mkJob (ID job) (JobType job) (SchemaID job) (TableID job) (State job)
                     (SchemaState job) (Error job) (ErrorCount job) (DependencyID job)
                     (StartTS job) (Version job) (Query job) (marshalArgs (Args job))
                     (Args job) (BinlogInfo job)
          else job in
        (set_txn t (set_jobList (jobListKey t) (txn t) (<[idx := stored]> q)), None)
      else (t, Some (ErrTerror 0))
  end.

(** Modelled from the spec: [AddHistoryDDLJob], which is not among the
    sources; it appends the job to the history store, keyed by its ID. *)
Definition AddHistoryDDLJob (t : Meta) (job : Job) : Meta * option error :=
  match kvErr OpAddHistoryDDLJob (txn t) with
  | Some e => (t, Some e)
  | None =>
      let s := txn t in
      (set_txn t (mkStore (nextGlobalID s) (globalSchemaVersion s) (schemaDiffs s)
                    (defaultJobList s) (addIndexJobList s)
                    (<[ID job := job]> (historyJobs s))), None)
  end.

(** Modelled from the spec: [GetHistoryDDLJob], which is not among the
    sources; the history record of an ID, or none. *)
Definition GetHistoryDDLJob (t : Meta) (id : Z) : result (option Job) :=
  match kvErr OpGetHistoryDDLJob (txn t) with
  | Some e => Err e
  | None => Ok (historyJobs (txn t) !! id)
  end.

(** Modelled from the spec: [kv.RunInNewTxn], which is not among the
    sources; all-or-nothing execution of a closure.  The closure works on
    a view of the store and returns what it leaves in the variables it
    captures, its view and its error; the view becomes the store when
    the closure returns no error and the commit succeeds, otherwise the
    store stays as it was.  One attempt is modelled: what a retried
    attempt does is a further call. *)
Definition RunInNewTxn {A} (store : Store) (f : Store -> A * Store * option error)
  : A * Store * option error :=
  let '(a, view, err) := f store in
  match err with
  | Some e => (a, store, Some e)
  | None =>
      match kvErr OpCommit view with
      | Some e => (a, store, Some e)
      | None => (a, view, None)
      end
  end.

End Operations.

End Meta.

(** ** The DDL worker (package [ddl]) *)

Module DDL.
Import Model Meta.

Inductive workerType : Type :=
| generalWorker
| addIdxWorker
| otherWorker (b : Z).

Definition WaitTimeWhenErrorOccured : Z := 1 * Second.
Definition waitDependencyJobInterval : Z := 200 * Millisecond.
Definition noneDependencyJob : Z := 0.

Record worker : Type := mkWorker {
  id : Z;
  tp : workerType
}.

(** The part of [ddlCtx] that the functions below read. *)
Record ddlCtx : Type := mkDdlCtx {
  lease : Z
}.

(** What the worker does to the world outside the store, in order. *)
Inductive Event : Type :=
| EvSleep (d : Z)
| EvContextWithTimeout (d : Z)
| EvMustGetGlobalVersion
| EvOwnerUpdateGlobalVersion (ver : Z)
| EvOwnerCheckAllVersions (ver : Z)
| EvNotifyCleanExpiredPaths
| EvWaitContextDone
| EvSetDDLBinlog (jobID : Z)
| EvNotifyDDLJobDone.

#[global] Instance Event_eq_dec : EqDecision Event.
Proof. solve_decision. Defined.

(** How one step of a job ends: it returns a version and an error, or
    it panics; in both cases the job and the transaction are as the step
    left them. *)
Inductive StepOut : Type :=
| Returned (job : Job) (t : Meta) (ver : Z) (err : option error)
| Panicked (job : Job) (t : Meta).

(** The functions and values of other packages that the worker calls:
    the job library's [IsDependentOn] and [DecodeArgs] (with one [int64]
    target, and for the flag of a recover-table job), the package's
    [currentVersion] and [recoverTableCheckFlagEnableGC], the delete-range
    manager, [enableGC], the step functions of the job types ([runStep],
    applied to the job once its state is set) and
    [convertJob2RollbackJob], [admin.IsJobRollbackable], the error count
    limit (as read after the variables are loaded), the schema syncer and
    the callbacks. *)
Class DDLEnv : Type := {
  IsDependentOn : Job -> Job -> result bool;
  DecodeArgs_int64 : Job -> result Z;
  DecodeArgs_recoverTableCheckFlag : Job -> result Z;
  currentVersion : Z;
  recoverTableCheckFlagEnableGC : Z;
  addDelRangeJob : Job -> option error;
  enableGC : option error;
  runStep : ddlCtx -> Meta -> Job -> StepOut;
  convertJob2RollbackJob : ddlCtx -> Meta -> Job -> StepOut;
  IsJobRollbackable : Job -> bool;
  GetDDLErrorCountLimit : Z;
  OwnerUpdateGlobalVersion : Z -> option error;
  OwnerCheckAllVersions : Z -> option error;
  MustGetGlobalVersion : result Z;
  OnJobRunBefore : Job -> Job;
  OnJobUpdated : Job -> Job
}.

Section Worker.
Context `{KVStore} `{DDLEnv}.

Definition typeStr (w : worker) : string :=
  match tp w with
  | generalWorker => "general"
  | addIdxWorker => AddIndexStr
  | otherWorker _ => "unknow"
  end.

(** The loop of [buildJobDependence] over the jobs of the other queue,
    in the order of the snapshot; the job is as the loop leaves it. *)
Fixpoint buildJobDependence_loop (jobs : list Job) (curJob : Job) : Job * option error :=
  match jobs with
  | [] => (curJob, None)
  | job :: rest =>
      if ID curJob <? ID job then buildJobDependence_loop rest curJob
      else
        match IsDependentOn curJob job with
        | Err e => (curJob, Some e)
        | Ok true => (set_DependencyID curJob (ID job), None)
        | Ok false => buildJobDependence_loop rest curJob
        end
  end.

Definition buildJobDependence (t : Meta) (curJob : Job) : Job * option error :=
  let jobs :=
    match JobType curJob with
    | ActionAddIndex => GetAllDDLJobsInQueue t DefaultJobListKey
    | _ => GetAllDDLJobsInQueue t AddIndexJobListKey
    end in
  match jobs with
  | Err e => (curJob, Some e)
  | Ok jobs => buildJobDependence_loop jobs curJob
  end.

Definition newMetaWithQueueTp (view : Store) (startTS : Z) (tp : string) : Meta :=
  if String.eqb tp AddIndexStr
  then NewMeta view startTS AddIndexJobListKey
  else NewMeta view startTS DefaultJobListKey.

(** The closure that [addDDLJob] runs in a new transaction. *)
Definition addDDLJob_txn (job : Job) (startTS : Z) (view : Store) : Job * Store * option error :=
  let t := newMetaWithQueueTp view startTS (ActionType_String (JobType job)) in
  match GenGlobalID t with
  | Err e => (job, txn t, Some e)
  | Ok (newID, t) =>
      let job := set_ID job newID in
      let job := set_StartTS job (metaStartTS t) in
      match buildJobDependence t job with
      | (job, Some e) => (job, txn t, Some e)
      | (job, None) =>
          let '(t, err) := EnQueueDDLJob t job in
          (job, txn t, err)
      end
  end.

(** [addDDLJob]: [query] is the statement text of the session and
    [startTS] the start timestamp of the new transaction. *)
Definition addDDLJob (store : Store) (startTS : Z) (query : string) (job : Job)
  : Job * Store * option error :=
  let job := set_Version job currentVersion in
  let job := set_Query job query in
  RunInNewTxn store (addDDLJob_txn job startTS).

Definition getFirstDDLJob (t : Meta) : result (option Job) := GetDDLJobByIdx t 0.

Definition isTError (err : error) : bool :=
  match err with
  | DeadlineExceeded | ErrPlain _ => false
  | _ => true
  end.

Definition toTError (err : error) : error :=
  if isTError err then err else ErrUnknownDDL err.

Definition deleteRange (job : Job) : option error :=
  if Version job <=? currentVersion then addDelRangeJob job
  else Some (errInvalidJobVersion (Version job) currentVersion).

Definition finishRecoverTable (w : worker) (t : Meta) (job : Job) : option error :=
  match DecodeArgs_recoverTableCheckFlag job with
  | Err e => Some e
  | Ok recoverTableCheckFlag =>
      if recoverTableCheckFlag =? recoverTableCheckFlagEnableGC then enableGC else None
  end.

Definition finishDDLJob (w : worker) (t : Meta) (job : Job) : Job * Meta * option error :=
  let err :=
    if negb (IsCancelled job) then
      match JobType job with
      | ActionAddIndex =>
          if negb (bool_decide (State job = JobStateRollbackDone)) then None
          else deleteRange job
      | ActionDropSchema | ActionDropTable | ActionTruncateTable | ActionDropIndex
      | ActionDropTablePartition | ActionTruncateTablePartition => deleteRange job
      | _ => None
      end
    else None in
  let err :=
    match JobType job with
    | ActionRecoverTable => finishRecoverTable w t job
    | _ => err
    end in
  match err with
  | Some e => (job, t, Some e)
  | None =>
      match DeQueueDDLJob t with
      | Err e => (job, t, Some e)
      | Ok (_, t) =>
          let job := set_BinlogInfo job (mkHistoryInfo (Payload (BinlogInfo job)) (metaStartTS t)) in
          let '(t, err) := AddHistoryDDLJob t job in
          (job, t, err)
      end
  end.

Definition handleUpdateJobError (w : worker) (t : Meta) (job : Job) (err : option error)
  : Job * Meta * option error :=
  match err with
  | None => (job, t, None)
  | Some e =>
      if bool_decide (e = ErrEntryTooLarge) then
        let job := set_BinlogInfo job (Clean (BinlogInfo job)) in
        let job := set_Error job (Some (toTError e)) in
        let job := set_SchemaState job StateNone in
        let job := set_State job JobStateCancelled in
        finishDDLJob w t job
      else (job, t, Some e)
  end.

Definition updateDDLJob (t : Meta) (job : Job) (meetErr : bool) : Meta * option error :=
  let updateRawArgs :=
    if meetErr && (bool_decide (RawArgs job <> None) && bool_decide (Args job = None))
    then false else true in
  UpdateDDLJob t 0 job updateRawArgs.

Definition isDependencyJobDone (t : Meta) (job : Job) : Job * result bool :=
  if DependencyID job =? noneDependencyJob then (job, Ok true)
  else
    match GetHistoryDDLJob t (DependencyID job) with
    | Err e => (job, Err e)
    | Ok None => (job, Ok false)
    | Ok (Some _) => (set_DependencyID job noneDependencyJob, Ok true)
    end.

Definition chooseLeaseTime (t max : Z) : Z :=
  if (t =? 0) || (max <? t) then max else t.

(** [updateSchemaVersion]: the version, the error, and the transaction
    as the function leaves it. *)
Definition updateSchemaVersion (t : Meta) (job : Job) : Z * option error * Meta :=
  match GenSchemaVersion t with
  | Err e => (0, Some e, t)
  | Ok (schemaVersion, t) =>
      let diff tableID oldTableID oldSchemaID :=
        mkSchemaDiff schemaVersion (JobType job) (SchemaID job) tableID oldTableID oldSchemaID in
      let written :=
        match JobType job with
        | ActionTruncateTable =>
            match DecodeArgs_int64 job with
            | Err e => Err e
            | Ok newTableID => Ok (diff newTableID (TableID job) 0)
            end
        | ActionRenameTable =>
            match DecodeArgs_int64 job with
            | Err e => Err e
            | Ok oldSchemaID => Ok (diff (TableID job) 0 oldSchemaID)
            end
        | _ => Ok (diff (TableID job) 0 0)
        end in
      match written with
      | Err e => (0, Some e, t)
      | Ok diff =>
          let '(t, err) := SetSchemaDiff t diff in
          (schemaVersion, err, t)
      end
  end.

(** The [switch job.Type] of [runDDLJob]: the step function of the
    job's type, and for any other type the job is cancelled as
    invalid. *)
Definition runDDLJob_switch (d : ddlCtx) (t : Meta) (job : Job) : StepOut :=
  match JobType job with
  | ActionCreateSchema | ActionModifySchemaCharsetAndCollate | ActionDropSchema
  | ActionCreateTable | ActionCreateView | ActionDropTable | ActionDropView
  | ActionDropTablePartition | ActionTruncateTablePartition | ActionAddColumn
  | ActionDropColumn | ActionModifyColumn | ActionSetDefaultValue | ActionAddIndex
  | ActionDropIndex | ActionRenameIndex | ActionAddForeignKey | ActionDropForeignKey
  | ActionTruncateTable | ActionRebaseAutoID | ActionRenameTable | ActionShardRowID
  | ActionModifyTableComment | ActionAddTablePartition
  | ActionModifyTableCharsetAndCollate | ActionRecoverTable => runStep d t job
  | ActionOther _ =>
      Returned (set_State job JobStateCancelled) t 0 (Some (errInvalidDDLJob (JobType job)))
  end.

(** [runDDLJob]: after the early returns the job's state is set to
    running unless it is rolling back, the step function of the job's
    type runs, and an error of the step is saved in the job. *)
Definition runDDLJob (w : worker) (d : ddlCtx) (t : Meta) (job : Job) : StepOut :=
  if IsFinished job then Returned job t 0 None
  else if IsCancelling job then convertJob2RollbackJob d t job
  else
    let job :=
      if negb (IsRollingback job) && negb (IsCancelling job)
      then set_State job JobStateRunning else job in
    match runDDLJob_switch d t job with
    | Panicked job t => Panicked job t
    | Returned job t ver None => Returned job t ver None
    | Returned job t ver (Some err) =>
        let job := set_Error job (Some (toTError err)) in
        let job := set_ErrorCount job (wrap64 (ErrorCount job + 1)) in
        if bool_decide (State job = JobStateCancelled) then Returned job t ver None
        else
          let job :=
            if (GetDDLErrorCountLimit <? ErrorCount job)
               && bool_decide (State job = JobStateRunning)
               && IsJobRollbackable job
            then set_State job JobStateCancelling else job in
          Returned job t ver (Some err)
    end.

(** [waitSchemaChanged]: [ctx] is the timeout of the caller's context,
    or none for a nil context. *)
Definition waitSchemaChanged (ctx : option Z) (d : ddlCtx) (waitTime : Z)
    (latestSchemaVersion : Z) (job : Job) : list Event :=
  if negb (IsRunning job) && negb (IsRollingback job) && negb (IsDone job)
     && negb (IsRollbackDone job) then []
  else if waitTime =? 0 then []
  else if latestSchemaVersion =? 0 then []
  else
    let withCtx := match ctx with None => [EvContextWithTimeout waitTime] | Some _ => [] end in
    let update := withCtx ++ [EvOwnerUpdateGlobalVersion latestSchemaVersion] in
    if bool_decide (OwnerUpdateGlobalVersion latestSchemaVersion = Some DeadlineExceeded)
    then update
    else
      let check := update ++ [EvOwnerCheckAllVersions latestSchemaVersion] in
      match OwnerCheckAllVersions latestSchemaVersion with
      | None => check
      | Some e =>
          if bool_decide (e = DeadlineExceeded) then check
          else check ++ [EvNotifyCleanExpiredPaths; EvWaitContextDone]
      end.

Definition waitSchemaSynced (d : ddlCtx) (job : Job) (waitTime : Z) : list Event :=
  if negb (IsRunning job) && negb (IsRollingback job) && negb (IsDone job)
     && negb (IsRollbackDone job) then []
  else
    [EvContextWithTimeout waitTime; EvMustGetGlobalVersion] ++
    match MustGetGlobalVersion with
    | Err _ => []
    | Ok latestSchemaVersion => waitSchemaChanged (Some waitTime) d waitTime latestSchemaVersion job
    end.

(** [waitDependencyJobFinished]: the sleep, and the new counter. *)
Definition waitDependencyJobFinished (job : Job) (cnt : Z) : list Event * Z :=
  if negb (DependencyID job =? noneDependencyJob)
  then ([EvSleep waitDependencyJobInterval], wrap64 (cnt + 1))
  else ([], 0).

(** What the transaction of one loop iteration leaves in the variables
    that its closure captures. *)
Record TxnOut : Type := mkTxnOut {
  o_job : option Job;
  o_schemaVer : Z;
  o_runJobErr : option error;
  o_once : bool;
  o_events : list Event
}.

(** The end of the closure of [handleDDLJobQueue], after the step:
    finish the job if it is cancelled, else write it back.  [snapshot]
    is the view that [txn.Reset] returns to. *)
Definition handleDDLJobQueue_save (w : worker) (once : bool) (snapshot : Store)
    (t : Meta) (job : Job) (schemaVer : Z) (runJobErr : option error)
  : TxnOut * Store * option error :=
  if IsCancelled job then
    let t := set_txn t snapshot in
    let '(job, t, err) := finishDDLJob w t job in
    (mkTxnOut (Some job) schemaVer runJobErr once [], txn t, err)
  else
    let '(t, err) := updateDDLJob t job (bool_decide (runJobErr <> None)) in
    let '(job, t, err) := handleUpdateJobError w t job err in
    match err with
    | Some e => (mkTxnOut (Some job) schemaVer runJobErr once [], txn t, Some e)
    | None =>
        let events :=
          if IsDone job || IsRollbackDone job then [EvSetDDLBinlog (ID job)] else [] in
        (mkTxnOut (Some job) schemaVer runJobErr once events, txn t, None)
    end.

(** The second half of the closure of [handleDDLJobQueue]: run one step
    of the job under recovery (a panic sets the job's state to
    cancelling and leaves the version and the error unset), then save
    the job. *)
Definition handleDDLJobQueue_run (w : worker) (d : ddlCtx) (once : bool) (snapshot : Store)
    (t : Meta) (job : Job) : TxnOut * Store * option error :=
  let job := OnJobRunBefore job in
  match runDDLJob w d t job with
  | Returned job t ver err => handleDDLJobQueue_save w once snapshot t job ver err
  | Panicked job t =>
      handleDDLJobQueue_save w once snapshot t (set_State job JobStateCancelling) 0 None
  end.

(** The closure of [handleDDLJobQueue] for a head job whose dependency
    is done: the first time, wait for the schema to be synced; then
    finish a job that is done or rolled back; else run a step. *)
Definition handleDDLJobQueue_ready (w : worker) (d : ddlCtx) (once : bool) (waitTime : Z)
    (view : Store) (t : Meta) (job : Job) : TxnOut * Store * option error :=
  if once then
    (mkTxnOut (Some job) 0 None false (waitSchemaSynced d job waitTime), txn t, None)
  else if IsDone job || IsRollbackDone job then
    let job := if negb (IsRollbackDone job) then set_State job JobStateSynced else job in
    let '(job, t, err) := finishDDLJob w t job in
    (mkTxnOut (Some job) 0 None once [], txn t, err)
  else handleDDLJobQueue_run w d once view t job.

(** The closure that one iteration of [handleDDLJobQueue] runs in a new
    transaction; [owner] is what [d.isOwner] answers. *)
Definition handleDDLJobQueue_txn (w : worker) (d : ddlCtx) (once owner : bool) (startTS : Z)
    (waitTime : Z) (view : Store) : TxnOut * Store * option error :=
  if negb owner then (mkTxnOut None 0 None once [], view, None)
  else
    let t := newMetaWithQueueTp view startTS (typeStr w) in
    match getFirstDDLJob t with
    | Err e => (mkTxnOut None 0 None once [], txn t, Some e)
    | Ok None => (mkTxnOut None 0 None once [], txn t, None)
    | Ok (Some job) =>
        match isDependencyJobDone t job with
        | (job, Err e) => (mkTxnOut (Some job) 0 None once [], txn t, Some e)
        | (job, Ok false) => (mkTxnOut (Some job) 0 None once [], txn t, None)
        | (job, Ok true) => handleDDLJobQueue_ready w d once waitTime view t job
        end
    end.

(** The state that the loop of [handleDDLJobQueue] keeps between its
    iterations. *)
Record LoopState : Type := mkLoopState {
  once : bool;
  waitDependencyJobCnt : Z
}.

(** The outcome of one iteration: the store, the loop state, the events,
    the step's schema version, and [Some err] when the function returns
    [err] ([None] when the loop goes on). *)
Record IterOut : Type := mkIterOut {
  it_store : Store;
  it_state : LoopState;
  it_events : list Event;
  it_schemaVer : Z;
  it_job : option Job;
  it_return : option (option error)
}.

(** One iteration of the loop of [handleDDLJobQueue]: [quit] tells
    whether the quit channel is closed, [owner] what [d.isOwner] answers,
    [startTS] is the start timestamp of the iteration's transaction. *)
Definition handleDDLJobQueue_iter (w : worker) (d : ddlCtx) (st : LoopState) (store : Store)
    (quit owner : bool) (startTS : Z) : IterOut :=
  if quit then mkIterOut store st [] 0 None (Some None)
  else
    let waitTime := wrap64 (2 * lease d) in
    let '(out, store, err) :=
      RunInNewTxn store (handleDDLJobQueue_txn w d (once st) owner startTS waitTime) in
    let sleep :=
      match o_runJobErr out with
      | Some _ => [EvSleep WaitTimeWhenErrorOccured]
      | None => []
      end in
    let events := o_events out ++ sleep in
    match err, o_job out with
    | Some e, _ =>
        mkIterOut store (mkLoopState (o_once out) (waitDependencyJobCnt st)) events
                  (o_schemaVer out) (o_job out) (Some (Some e))
    | None, None =>
        mkIterOut store (mkLoopState (o_once out) (waitDependencyJobCnt st)) events
                  (o_schemaVer out) None (Some None)
    | None, Some job =>
        let '(depWait, cnt) := waitDependencyJobFinished job (waitDependencyJobCnt st) in
        let job := OnJobUpdated job in
        let wait := waitSchemaChanged None d waitTime (o_schemaVer out) job in
        let notify := if IsSynced job || IsCancelled job then [EvNotifyDDLJobDone] else [] in
        mkIterOut store (mkLoopState (o_once out) cnt) (events ++ depWait ++ wait ++ notify)
                  (o_schemaVer out) (Some job) None
    end.

End Worker.

End DDL.

(** ** Vocabulary of the specification for the worker *)

Module DDLSpec.
Import Model Meta DDL.

(** The queue that [buildJobDependence] reads for a job of a type: the
    one the job itself is not put on. *)
Definition otherQueue (a : ActionType) : JobListKeyType :=
  match a with
  | ActionAddIndex => DefaultJobListKey
  | _ => AddIndexJobListKey
  end.

(** The queue that a job of a type is put on. *)
Definition ownQueue (a : ActionType) : JobListKeyType :=
  match a with
  | ActionAddIndex => AddIndexJobListKey
  | _ => DefaultJobListKey
  end.

(** The queue that a worker works on. *)
Definition workerQueue (w : worker) : JobListKeyType :=
  match tp w with
  | addIdxWorker => AddIndexJobListKey
  | _ => DefaultJobListKey
  end.


(** The job states in which a job may leave the live queue. *)
Definition terminal (s : JobState) : Prop :=
  s = JobStateSynced \/ s = JobStateCancelled \/ s = JobStateRollbackDone.

(** The job states in which [waitSchemaChanged] waits. *)
Definition waitable (job : Job) : bool :=
  IsRunning job || IsRollingback job || IsDone job || IsRollbackDone job.

(** Between [t], [job] and [t'], [job'] the job's ID, the transaction's
    handle, the job queues and the history are the same. *)
Definition same_queues (t : Meta) (job : Job) (t' : Meta) (job' : Job) : Prop :=
  ID job' = ID job /\
  jobListKey t' = jobListKey t /\
  metaStartTS t' = metaStartTS t /\
  defaultJobList (txn t') = defaultJobList (txn t) /\
  addIndexJobList (txn t') = addIndexJobList (txn t) /\
  historyJobs (txn t') = historyJobs (txn t).

(** A step function leaves the job's ID, the job queues and the history
    as they are. *)
Definition keeps_queues (f : ddlCtx -> Meta -> Job -> StepOut) : Prop :=
  forall d t job,
    match f d t job with
    | Returned job' t' _ _ | Panicked job' t' => same_queues t job t' job'
    end.

(** What a committed transaction of the worker may do to its queue [key]
    and to the history, from store [s] to store [s']: nothing; or replace
    the head job by a job of the same ID; or remove the head job and put
    a job of its ID, in a terminal state, into the history. *)
Definition queue_step (key : JobListKeyType) (s s' : Store) : Prop :=
  (jobList key s' = jobList key s /\ historyJobs s' = historyJobs s) \/
  (exists job rest job',
     jobList key s = job :: rest /\ jobList key s' = job' :: rest /\
     ID job' = ID job /\ historyJobs s' = historyJobs s) \/
  (exists job rest h,
     jobList key s = job :: rest /\ jobList key s' = rest /\
     ID h = ID job /\ terminal (State h) /\
     historyJobs s' = <[ID job := h]> (historyJobs s)).

(** The store after one increment of the schema version counter, and
    after one increment of the global ID counter. *)
Definition bumpedVersion (s : Store) : Store :=
  mkStore (nextGlobalID s) (globalSchemaVersion s + 1) (schemaDiffs s)
          (defaultJobList s) (addIndexJobList s) (historyJobs s).


(** The state that [runDDLJob] gives a job before the step function of
    its type runs. *)
Definition started (job : Job) : Job :=
  if negb (IsRollingback job) && negb (IsCancelling job)
  then set_State job JobStateRunning else job.

(** As the claim words it for truncate and rename: the diff carries both
    the job's table ID as the old one, and a new table ID. *)
Definition carries_old_and_new_TableID (job : Job) (newTableID : Z) (diff : SchemaDiff) : Prop :=
  diff_OldTableID diff = TableID job /\ diff_TableID diff = newTableID.

End DDLSpec.

(** ** Sample environments

    Instances of the environment classes on which the model runs on
    concrete inputs. *)

Module Samples.
Import Model Meta DDL.

(** An instance of the time operations on integers (nanoseconds since
    the epoch), with the timestamp's physical part in its high bits as
    milliseconds. *)
Definition ZTime : Validator.TimeOps := {|
  Validator.Time := Z;
  Validator.zeroTime := 0;
  Validator.GetTimeFromTS := fun ts => Z.shiftr ts 18 * Millisecond;
  Validator.timeAdd := fun t d => t + d;
  Validator.timeAfter := fun t u => u <? t
|}.

(** Three updates whose versions do not ascend: 10, then 2, then 5. *)
Definition unorderedUpdates : list Validator.updateCall :=
  [Validator.mkUpdateCall 0 0 10 [1]; Validator.mkUpdateCall 0 10 2 [];
   Validator.mkUpdateCall 0 2 5 [7]].

(** A store that never fails; the snapshot of a queue lists its jobs
    from the head on, or newest first when [newestFirst] is set. *)
Definition sampleKV (newestFirst : bool) : KVStore := {|
  kvErr := fun _ _ => None;
  GetAllDDLJobsInQueue := fun t key =>
    Ok (if newestFirst then reverse (jobList key (txn t)) else jobList key (txn t));
  marshalArgs := fun _ => Some []
|}.

(** Two jobs depend on each other when they are on the same table; a
    job's first argument decodes as an integer; a step is [step]. *)
Definition sampleEnv (step : ddlCtx -> Meta -> Job -> StepOut) : DDLEnv := {|
  IsDependentOn := fun a b => Ok (TableID a =? TableID b);
  DecodeArgs_int64 := fun job =>
    match Args job with
    | Some (ArgInt z :: _) => Ok z
    | _ => Err (ErrPlain 1)
    end;
  DecodeArgs_recoverTableCheckFlag := fun _ => Ok 0;
  currentVersion := 1;
  recoverTableCheckFlagEnableGC := 1;
  addDelRangeJob := fun _ => None;
  enableGC := None;
  runStep := step;
  convertJob2RollbackJob := fun _ t job => Returned (set_State job JobStateRollingback) t 0 None;
  IsJobRollbackable := fun _ => true;
  GetDDLErrorCountLimit := 2;
  OwnerUpdateGlobalVersion := fun _ => None;
  OwnerCheckAllVersions := fun _ => None;
  MustGetGlobalVersion := Ok 0;
  OnJobRunBefore := fun job => job;
  OnJobUpdated := fun job => job
|}.

(** A step that does nothing, one that fails, and one that bumps the
    schema version and makes the job's object public. *)
Definition idleStep : ddlCtx -> Meta -> Job -> StepOut :=
  fun _ t job => Returned job t 0 None.

Definition failingStep : ddlCtx -> Meta -> Job -> StepOut :=
  fun _ t job => Returned job t 0 (Some (ErrTerror 7)).

Definition bumpStep : ddlCtx -> Meta -> Job -> StepOut :=
  fun _ t job =>
    let '(ver, err, t) :=
      @updateSchemaVersion (sampleKV false) (sampleEnv idleStep) t job in
    Returned (set_SchemaState job StatePublic) t ver err.

Definition sampleJob (id : Z) (tp : ActionType) (table : Z) (st : JobState) : Job :=
  mkJob id tp 1 table st StateNone None 0 0 0 1 EmptyString None (Some [ArgInt 9])
        (mkHistoryInfo [] 0).

Definition emptyStore : Store := mkStore 0 0 ∅ [] [] ∅.

(** Two jobs on table 1 in the default queue, the older at the head,
    and an add-index job on table 1 that is to be queued. *)
Definition job1 : Job := sampleJob 1 ActionAddColumn 1 JobStateRunning.
Definition job2 : Job := sampleJob 2 ActionCreateTable 1 JobStateNone.
Definition job4 : Job := sampleJob 4 ActionAddIndex 1 JobStateNone.
Definition twoJobs : Store := mkStore 4 0 ∅ [job1; job2] [] ∅.

(** A rename job on table 7 whose argument decodes as 9. *)
Definition renameJob : Job := sampleJob 3 ActionRenameTable 7 JobStateRunning.

(** A running job that has failed twice. *)
Definition failedTwice : Job := set_ErrorCount job1 2.

(** A queue whose head job is done. *)
Definition doneJob : Job := sampleJob 1 ActionCreateTable 1 JobStateDone.
Definition doneAtHead : Store := mkStore 4 1 ∅ [doneJob; job2] [] ∅.

Definition generalW : worker := mkWorker 1 generalWorker.
Definition running : LoopState := mkLoopState false 0.

End Samples.

(** ** The validator under any sequence of calls *)

Module ValidatorCalls.
Import Validator.

(** One call of the validator's interface that changes its state. *)
Inductive validatorCall : Type :=
| CallUpdate (u : updateCall)
| CallStop
| CallRestart
| CallReset.

Section Calls.
Context `{TimeOps}.
Variable maxNumberOfDiffsToLoad : nat.

Definition call (s : schemaValidator) (c : validatorCall) : schemaValidator :=
  match c with
  | CallUpdate u =>
      Update maxNumberOfDiffsToLoad s (u_leaseGrantTS u) (u_oldVer u) (u_currVer u)
             (u_changedTableIDs u)
  | CallStop => Stop s
  | CallRestart => Restart s
  | CallReset => Reset s
  end.

Definition runCalls (s : schemaValidator) (cs : list validatorCall) : schemaValidator :=
  foldl call s cs.

End Calls.

(** The versions that a run of [Update] calls sets never decrease. *)
Definition updates_ordered (us : list updateCall) : Prop :=
  StronglySorted (fun u v => u_currVer u <= u_currVer v) us.

End ValidatorCalls.

(** ** The alter algorithm (package [ddl]) *)

Module Algorithm.

(** [ast.AlterAlgorithm]: the values that the package names, and any
    other value. *)
Inductive ast_AlterAlgorithm : Type :=
| AlterAlgorithmDefault
| AlterAlgorithmInplace
| AlterAlgorithmInstant
| AlterAlgorithmOther (code : Z).

#[global] Instance ast_AlterAlgorithm_eq_dec : EqDecision ast_AlterAlgorithm.
Proof. solve_decision. Defined.

(** [ast.AlterTableType]: the value that [ResolveAlterAlgorithm] names,
    and any other value. *)
Inductive AlterTableType : Type :=
| AlterTableAddConstraint
| AlterTableOther (code : Z).

(** The part of [ast.AlterTableSpec] that is read. *)
Record AlterTableSpec : Type := mkAlterTableSpec {
  Tp : AlterTableType
}.

Record AlterAlgorithm : Type := mkAlterAlgorithm {
  supported : list ast_AlterAlgorithm;
  defAlgorithm : ast_AlterAlgorithm
}.

(** [ErrAlterOperationNotSupported], with the algorithm that was asked
    for and the one that is offered instead. *)
Inductive algorithmError : Type :=
| ErrAlterOperationNotSupported (specify offered : ast_AlterAlgorithm).

Definition instantAlgorithm : AlterAlgorithm :=
  {| supported := [AlterAlgorithmInstant]; defAlgorithm := AlterAlgorithmInstant |}.

Definition inplaceAlgorithm : AlterAlgorithm :=
  {| supported := [AlterAlgorithmInplace]; defAlgorithm := AlterAlgorithmInplace |}.

Definition defaultAlgorithm : ast_AlterAlgorithm := AlterAlgorithmInstant.

(** The loop of [getProperAlgorithm] over the supported algorithms:
    whether it returns from inside. *)
Fixpoint getProperAlgorithm_loop (specify : ast_AlterAlgorithm)
    (supported : list ast_AlterAlgorithm) : bool :=
  match supported with
  | [] => false
  | a :: rest => if bool_decide (specify = a) then true else getProperAlgorithm_loop specify rest
  end.

Definition getProperAlgorithm (specify : ast_AlterAlgorithm) (algorithm : AlterAlgorithm)
  : ast_AlterAlgorithm * option algorithmError :=
  if bool_decide (specify = AlterAlgorithmDefault) then (defAlgorithm algorithm, None)
  else if getProperAlgorithm_loop specify (supported algorithm) then (specify, None)
  else (defAlgorithm algorithm,
        Some (ErrAlterOperationNotSupported specify (defAlgorithm algorithm))).

Definition ResolveAlterAlgorithm (alterSpec : AlterTableSpec) (specify : ast_AlterAlgorithm)
  : ast_AlterAlgorithm * option algorithmError :=
  match Tp alterSpec with
  | AlterTableAddConstraint => getProperAlgorithm specify inplaceAlgorithm
  | _ => getProperAlgorithm specify instantAlgorithm
  end.

End Algorithm.

(** ** More of the worker: the ticker of [start] *)

Module Ticker.
Import DDL.

(** The period of the ticker in [worker.start]:
    [chooseLeaseTime(2*d.lease, 1*time.Second)]. *)
Definition start_checkTime (d : ddlCtx) : Z :=
  chooseLeaseTime (wrap64 (2 * lease d)) (1 * Second).

End Ticker.

(** ** Vocabulary for further properties of the worker *)

Module WorkerSpec.
Import Model Meta DDL.

(** The jobs for which [finishDDLJob] asks the delete-range manager: a
    rolled back add-index job and the jobs that drop or truncate. *)
Definition needsDeleteRange (job : Job) : bool :=
  match JobType job with
  | ActionAddIndex => bool_decide (State job = JobStateRollbackDone)
  | ActionDropSchema | ActionDropTable | ActionTruncateTable | ActionDropIndex
  | ActionDropTablePartition | ActionTruncateTablePartition => true
  | _ => false
  end.

(** A job of the snapshot that the loop of [buildJobDependence] passes
    by: it is newer than the current job, or the current job does not
    depend on it. *)
Definition passedBy `{DDLEnv} (cur job : Job) : Prop :=
  ID cur < ID job \/ IsDependentOn cur job = Ok false.

(** The job as [handleUpdateJobError] cancels it. *)
Definition cancelledTooLarge (job : Job) : Job :=
  set_State
    (set_SchemaState
       (set_Error (set_BinlogInfo job (Clean (BinlogInfo job))) (Some ErrEntryTooLarge))
       StateNone)
    JobStateCancelled.

(** The job as [UpdateDDLJob] stores it when it serializes the
    arguments again. *)
Definition remarshalled `{KVStore} (job : Job) : Job :=
  mkJob (ID job) (JobType job) (SchemaID job) (TableID job) (State job)
        (SchemaState job) (Error job) (ErrorCount job) (DependencyID job)
        (StartTS job) (Version job) (Query job) (marshalArgs (Args job))
        (Args job) (BinlogInfo job).

End WorkerSpec.

(** ** More sample data *)

Module MoreSamples.
Import Model Meta DDL Samples.

(** Three updates whose versions ascend. *)
Definition orderedUpdates : list Validator.updateCall :=
  [Validator.mkUpdateCall 0 0 2 [1]; Validator.mkUpdateCall 0 2 5 [7];
   Validator.mkUpdateCall 0 5 9 [3]].

(** A drop-table job of a version that the package does not know. *)
Definition newerDropJob : Job := set_Version (sampleJob 1 ActionDropTable 1 JobStateDone) 2.

(** A job of an unknown type. *)
Definition unknownJob : Job := sampleJob 1 (ActionOther 99) 1 JobStateNone.

(** A job that waits for job 1, at the head of the add-index queue. *)
Definition waitingJob : Job := set_DependencyID job4 1.
Definition oneWaiting : Store := mkStore 4 0 ∅ [job1] [waitingJob] ∅.

(** A job whose arguments have not been decoded. *)
Definition undecodedJob : Job :=
  mkJob 1 ActionAddColumn 1 1 JobStateRunning StateNone None 0 0 0 1 EmptyString
        (Some [91; 93]) None (mkHistoryInfo [] 0).
Definition undecodedAtHead : Store := mkStore 4 0 ∅ [undecodedJob] [] ∅.

(** A step that panics. *)
Definition panickingStep : ddlCtx -> Meta -> Job -> StepOut :=
  fun _ t job => Panicked job t.

Definition addIdxW : worker := mkWorker 2 addIdxWorker.
Definition firstTime : LoopState := mkLoopState true 0.

End MoreSamples.

(** * Properties *)

Lemma wrap64_range z : int64_range (wrap64 z).
Proof. unfold wrap64, int64_range. pose proof (Z.mod_pos_bound (z + 2 ^ 63) (2 ^ 64)). lia. Qed.

Lemma wrap64_id z : int64_range z -> wrap64 z = z.
Proof. unfold wrap64, int64_range. intros Hz. rewrite Z.mod_small; lia. Qed.

(** ** The schema validator *)

Section ValidatorProps.
Import Validator.
Context `{TimeOps}.
Variable maxNumberOfDiffsToLoad : nat.

Local Abbreviation enqueue := (enqueue maxNumberOfDiffsToLoad).
Local Abbreviation Update := (Update maxNumberOfDiffsToLoad).
Local Abbreviation runUpdates := (runUpdates maxNumberOfDiffsToLoad).

Implicit Types (s : schemaValidator) (q l : list deltaSchemaInfo) (d : deltaSchemaInfo).

(** *** [findNewerDeltas] returns the longest suffix of newer entries *)

Lemma findNewerDeltas_loop_inv q v n :
  (n <= length q)%nat ->
  let p := findNewerDeltas_loop q v n n in
  (p <= n)%nat /\
  (forall i d, (p <= i < n)%nat -> q !! i = Some d -> v < schemaVersion d) /\
  (p = O \/ exists d, q !! (p - 1)%nat = Some d /\ schemaVersion d <= v).
Proof.
  induction n as [|i IH]; intros Hn; simpl.
  - split; [lia|]. split; [intros; lia|]. by left.
  - destruct (lookup_lt_is_Some_2 q i) as [d Hd]; [lia|].
    rewrite Hd. destruct (Z.ltb_spec v (schemaVersion d)) as [Hlt|Hge].
    + destruct IH as (Hp & Hall & Hstop); [lia|].
      split; [lia|]. split; [|done].
      intros j d' Hj Hj'. destruct (decide (j = i)) as [->|Hne].
      * congruence.
      * apply (Hall j d'); [lia|done].
    + split; [lia|]. split; [intros; lia|].
      right. exists d. replace (S i - 1)%nat with i by lia. done.
Qed.

Lemma suffix_drop_length {A} (l q : list A) :
  l `suffix_of` q -> l = drop (length q - length l) q.
Proof.
  intros [k ->]. rewrite length_app.
  replace (length k + length l - length l)%nat with (length k) by lia.
  by rewrite drop_app_length.
Qed.

Lemma findNewerDeltas_newer_suffix s v :
  newer_suffix (deltaSchemaInfos s) v (findNewerDeltas s v).
Proof.
  unfold findNewerDeltas. set (q := deltaSchemaInfos s).
  destruct (findNewerDeltas_loop_inv q v (length q)) as (Hp & Hall & Hstop); [lia|].
  set (p := findNewerDeltas_loop q v (length q) (length q)) in *.
  split; [apply suffix_drop|]. split.
  - apply Forall_lookup_2. intros i d Hi. rewrite lookup_drop in Hi.
    apply (Hall (p + i)%nat d); [|done].
    apply lookup_lt_Some in Hi. lia.
  - intros l' Hsuf Hnew. rewrite length_drop.
    destruct Hstop as [->|(d & Hd & Hle)]; [apply suffix_length in Hsuf; lia|].
    destruct (decide (length l' <= length q - p)%nat) as [|Hlong]; [done|].
    exfalso. pose proof (suffix_length _ _ Hsuf) as Hlen.
    rewrite (suffix_drop_length _ _ Hsuf) in Hnew.
    rewrite Forall_lookup in Hnew.
    specialize (Hnew (p - 1 - (length q - length l'))%nat d).
    rewrite lookup_drop in Hnew.
    replace (length q - length l' + (p - 1 - (length q - length l')))%nat
      with (p - 1)%nat in Hnew by lia.
    specialize (Hnew Hd). simpl in Hnew. lia.
Qed.

Lemma newer_suffix_unique q v l1 l2 :
  newer_suffix q v l1 -> newer_suffix q v l2 -> l1 = l2.
Proof.
  intros (S1 & F1 & M1) (S2 & F2 & M2).
  pose proof (M1 _ S2 F2). pose proof (M2 _ S1 F1).
  rewrite (suffix_drop_length _ _ S1), (suffix_drop_length _ _ S2).
  f_equal. lia.
Qed.

Lemma hasRelatedTableID_true (related update : list Z) :
  hasRelatedTableID related update = true <-> exists t, t ∈ update /\ t ∈ related.
Proof.
  unfold hasRelatedTableID. rewrite existsb_exists. split.
  - intros (t & Ht & Hex). apply existsb_exists in Hex as (r & Hr & Heq).
    apply Z.eqb_eq in Heq. subst r. exists t. by rewrite !list_elem_of_In.
  - intros (t & Ht & Hr). exists t. rewrite <- list_elem_of_In. split; [done|].
    apply existsb_exists. exists t. rewrite <- list_elem_of_In. split; [done|]. apply Z.eqb_refl.
Qed.

Lemma isRelatedTablesChanged_true s v ids :
  isRelatedTablesChanged s v ids = true <->
  findNewerDeltas s v = deltaSchemaInfos s \/
  exists d, d ∈ findNewerDeltas s v /\ touches ids d.
Proof.
  unfold isRelatedTablesChanged.
  pose proof (findNewerDeltas_newer_suffix s v) as (Hsuf & _ & _).
  destruct (Nat.eqb_spec (length (deltaSchemaInfos s)) 0) as [Hnil|Hne].
  - split; [intros _|done]. left. apply nil_length_inv in Hnil.
    rewrite Hnil in Hsuf |- *. by apply suffix_nil_inv.
  - destruct (Nat.eqb_spec (length (findNewerDeltas s v)) (length (deltaSchemaInfos s)))
      as [Heq|Hneq].
    + split; [intros _|done]. left.
      rewrite (suffix_drop_length _ _ Hsuf). rewrite Heq, Nat.sub_diag. done.
    + rewrite existsb_exists. split.
      * intros (d & Hd & Hrel). right. apply hasRelatedTableID_true in Hrel as (t & ? & ?).
        exists d. rewrite list_elem_of_In. split; [done|]. by exists t.
      * intros [Heq|(d & Hd & t & Ht & Hr)]; [by rewrite Heq in Hneq|].
        exists d. rewrite <- list_elem_of_In. split; [done|].
        apply hasRelatedTableID_true. by exists t.
Qed.

(** *** [Check] *)

Lemma Check_stale s txnTS schemaVer ids :
  isStarted s = true -> lease s <> 0 -> schemaVer < latestSchemaVer s ->
  Check s txnTS schemaVer ids =
    if (length ids =? 0)%nat then ResultFail
    else if isRelatedTablesChanged s schemaVer ids then ResultFail else ResultSucc.
Proof.
  intros Hs Hl Hv. unfold Check. rewrite Hs. simpl.
  destruct (Z.eqb_spec (lease s) 0); [done|].
  destruct (Z.ltb_spec schemaVer (latestSchemaVer s)); [done|lia].
Qed.

Lemma Check_fresh s txnTS schemaVer ids :
  isStarted s = true -> lease s <> 0 -> latestSchemaVer s <= schemaVer ->
  Check s txnTS schemaVer ids =
    if timeAfter (GetTimeFromTS txnTS) (latestSchemaExpire s) then ResultUnknown else ResultSucc.
Proof.
  intros Hs Hl Hv. unfold Check. rewrite Hs. simpl.
  destruct (Z.eqb_spec (lease s) 0); [done|].
  destruct (Z.ltb_spec schemaVer (latestSchemaVer s)); [lia|done].
Qed.

Lemma Check_stale_fails s txnTS schemaVer ids :
  isStarted s = true -> lease s <> 0 -> schemaVer < latestSchemaVer s ->
  (Check s txnTS schemaVer ids = ResultFail <->
     ids = [] \/ findNewerDeltas s schemaVer = deltaSchemaInfos s \/
     exists d, d ∈ findNewerDeltas s schemaVer /\ touches ids d) /\
  (Check s txnTS schemaVer ids <> ResultFail -> Check s txnTS schemaVer ids = ResultSucc).
Proof.
  intros Hs Hl Hv. rewrite (Check_stale _ _ _ _ Hs Hl Hv).
  pose proof (isRelatedTablesChanged_true s schemaVer ids) as Hrel.
  destruct ids as [|t ids]; simpl.
  - split; [|done]. split; [by left|done].
  - destruct (isRelatedTablesChanged s schemaVer (t :: ids)).
    + split; [|done]. split; [intros _|done]. right. by apply Hrel.
    + split; [|done]. split; [done|]. intros [?|Hr]; [done|].
      apply Hrel in Hr. done.
Qed.

(** C2 (amended): the result of [Check] in each of its cases.  With a
    stopped validator it is Unknown; else with a zero lease it is Succ;
    else with [schemaVer < latestSchemaVer] it is Fail exactly when the
    related tables are empty, or the longest suffix of the delta queue
    whose versions are greater than [schemaVer] is the whole queue (an
    empty queue too), or a related table appears in a delta of that
    suffix, and Succ otherwise; else it is Succ when the transaction's
    time is not after the lease expiry and Unknown otherwise. *)
Theorem Check_decides s txnTS schemaVer ids newer :
  newer_suffix (deltaSchemaInfos s) schemaVer newer ->
  (isStarted s = false -> Check s txnTS schemaVer ids = ResultUnknown) /\
  (isStarted s = true -> lease s = 0 -> Check s txnTS schemaVer ids = ResultSucc) /\
  (isStarted s = true -> lease s <> 0 -> schemaVer < latestSchemaVer s ->
     (Check s txnTS schemaVer ids = ResultFail <->
        ids = [] \/ newer = deltaSchemaInfos s \/ exists d, d ∈ newer /\ touches ids d) /\
     (Check s txnTS schemaVer ids <> ResultFail -> Check s txnTS schemaVer ids = ResultSucc)) /\
  (isStarted s = true -> lease s <> 0 -> latestSchemaVer s <= schemaVer ->
     Check s txnTS schemaVer ids =
       if timeAfter (GetTimeFromTS txnTS) (latestSchemaExpire s)
       then ResultUnknown else ResultSucc).
Proof.
  intros Hnewer.
  rewrite (newer_suffix_unique _ _ _ _ Hnewer (findNewerDeltas_newer_suffix s schemaVer)).
  split; [|split; [|split]].
  - intros Hs. unfold Check. by rewrite Hs.
  - intros Hs Hl. unfold Check. rewrite Hs, Hl. done.
  - apply Check_stale_fails.
  - intros Hs Hl Hv. by apply Check_fresh.
Qed.

(** On a queue whose versions never decrease, the deltas of the newer
    suffix are all the deltas with a version greater than [v]. *)
Lemma newer_suffix_ascending q v l d :
  versions_ascending q -> newer_suffix q v l ->
  d ∈ l <-> d ∈ q /\ v < schemaVersion d.
Proof.
  intros Hasc (Hsuf & Hall & Hmax). split.
  - intros Hd. split.
    + destruct Hsuf as [k ->]. apply elem_of_app. by right.
    + rewrite Forall_forall in Hall. by apply Hall.
  - intros [Hd Hv]. apply list_elem_of_lookup in Hd as [i Hi].
    assert (Forall (fun e => v < schemaVersion e) (drop i q)) as Hdrop.
    { apply Forall_lookup_2. intros j e Hj. rewrite lookup_drop in Hj.
      pose proof (Hasc i (i + j)%nat d e ltac:(lia) Hi Hj). simpl. lia. }
    pose proof (Hmax _ (suffix_drop q i) Hdrop) as Hlen.
    rewrite length_drop in Hlen.
    rewrite (suffix_drop_length _ _ Hsuf).
    apply list_elem_of_lookup. exists (i - (length q - length l))%nat.
    rewrite lookup_drop. rewrite <- Hi. f_equal.
    apply lookup_lt_Some in Hi. lia.
Qed.

(** On a validator whose delta versions never decrease, [Check] at a
    stale version fails exactly when the related tables are empty, or
    every delta is newer than the version, or a related table appears in
    some delta newer than the version. *)
Lemma Check_stale_ascending s txnTS schemaVer ids :
  versions_ascending (deltaSchemaInfos s) ->
  isStarted s = true -> lease s <> 0 -> schemaVer < latestSchemaVer s ->
  Check s txnTS schemaVer ids = ResultFail <->
    ids = [] \/
    Forall (fun d => schemaVer < schemaVersion d) (deltaSchemaInfos s) \/
    exists d, d ∈ deltaSchemaInfos s /\ schemaVer < schemaVersion d /\ touches ids d.
Proof.
  intros Hasc Hs Hl Hv.
  pose proof (findNewerDeltas_newer_suffix s schemaVer) as Hnewer.
  destruct (Check_stale_fails s txnTS schemaVer ids Hs Hl Hv) as [-> _].
  pose proof Hnewer as (Hsuf & Hall & Hmax).
  split; (intros [?|[Hwhole|(d & Hd & Ht)]]; [by left|right; left|right; right]).
  - by rewrite <- Hwhole.
  - exists d. apply (newer_suffix_ascending _ _ _ d Hasc Hnewer) in Hd as [? ?]. done.
  - specialize (Hmax _ (reflexivity _) Hwhole).
    rewrite (suffix_drop_length _ _ Hsuf).
    apply suffix_length in Hsuf.
    by replace (length (deltaSchemaInfos s) - length (findNewerDeltas s schemaVer))%nat
      with O by lia.
  - destruct Ht as [Hd' Ht]. exists d. split; [|done].
    by apply (newer_suffix_ascending _ _ _ d Hasc Hnewer).
Qed.

(** *** [Stop], [Restart], [Reset] *)

Lemma Check_stopped s txnTS schemaVer ids :
  isStarted s = false -> Check s txnTS schemaVer ids = ResultUnknown.
Proof. intros Hs. unfold Check. by rewrite Hs. Qed.

(** A started validator with no version and no deltas: a stale version
    (below 0) fails, any other is decided by the lease expiry. *)
Lemma Check_cleared s txnTS schemaVer ids :
  isStarted s = true -> latestSchemaVer s = 0 -> deltaSchemaInfos s = [] ->
  Check s txnTS schemaVer ids =
    if lease s =? 0 then ResultSucc
    else if schemaVer <? 0 then ResultFail
    else if timeAfter (GetTimeFromTS txnTS) (latestSchemaExpire s)
         then ResultUnknown else ResultSucc.
Proof.
  intros Hs Hv Hq. unfold Check, isRelatedTablesChanged. rewrite Hs, Hv, Hq. simpl.
  destruct (lease s =? 0); [done|].
  destruct (schemaVer <? 0); [|done].
  by destruct (length ids =? 0)%nat.
Qed.

(** C3 (amended): after [Stop] every [Check] returns Unknown; [Restart]
    alone keeps the version and the deltas it finds, but [Stop] has set
    the version to 0 and emptied the delta queue, so after [Stop] and
    [Restart] the validator checks against version 0 and no deltas, with
    the lease expiry it had before. *)
Theorem Stop_then_Restart s :
  (forall txnTS schemaVer ids, Check (Stop s) txnTS schemaVer ids = ResultUnknown) /\
  latestSchemaVer (Restart s) = latestSchemaVer s /\
  deltaSchemaInfos (Restart s) = deltaSchemaInfos s /\
  isStarted (Restart (Stop s)) = true /\
  latestSchemaVer (Restart (Stop s)) = 0 /\
  deltaSchemaInfos (Restart (Stop s)) = [] /\
  (forall txnTS schemaVer ids,
     Check (Restart (Stop s)) txnTS schemaVer ids =
       if lease s =? 0 then ResultSucc
       else if schemaVer <? 0 then ResultFail
       else if timeAfter (GetTimeFromTS txnTS) (latestSchemaExpire s)
            then ResultUnknown else ResultSucc).
Proof.
  repeat split; try done.
  intros txnTS schemaVer ids. by rewrite Check_cleared.
Qed.

(** C10: [Stop] and [Reset] leave [latestSchemaExpire] (and the lease)
    as they were, while they clear the version and the delta queue and
    set [isStarted] to false and true; right after [Reset] a [Check]
    with [schemaVer >= 0] is decided by the expiry recorded before the
    call: it is Succ when the transaction's time is not after it. *)
Theorem Stop_Reset_keep_expire s :
  latestSchemaExpire (Stop s) = latestSchemaExpire s /\
  latestSchemaExpire (Reset s) = latestSchemaExpire s /\
  (isStarted (Stop s) = false /\ latestSchemaVer (Stop s) = 0 /\ deltaSchemaInfos (Stop s) = []) /\
  (isStarted (Reset s) = true /\ latestSchemaVer (Reset s) = 0 /\ deltaSchemaInfos (Reset s) = []) /\
  (forall txnTS schemaVer ids,
     Check (Reset s) txnTS schemaVer ids =
       if lease s =? 0 then ResultSucc
       else if schemaVer <? 0 then ResultFail
       else if timeAfter (GetTimeFromTS txnTS) (latestSchemaExpire s)
            then ResultUnknown else ResultSucc).
Proof.
  repeat split; try done.
  intros txnTS schemaVer ids. by rewrite Check_cleared.
Qed.

(** *** The bounded delta queue *)

Lemma length_lastn {A} (n : nat) (l : list A) : (length (lastn n l) <= n)%nat.
Proof. unfold lastn. rewrite length_drop. lia. Qed.

Lemma lastn_short {A} (n : nat) (l : list A) : (length l <= n)%nat -> lastn n l = l.
Proof. intros Hl. unfold lastn. by replace (length l - n)%nat with O by lia. Qed.

Lemma lastn_app_lastn {A} (n : nat) (l r : list A) :
  lastn n (lastn n l ++ r) = lastn n (l ++ r).
Proof.
  unfold lastn. rewrite !length_app, length_drop.
  rewrite <- (drop_app_le l r (length l - n)) by lia.
  rewrite drop_drop. f_equal. lia.
Qed.

Lemma enqueue_deltas s v ids :
  (length (deltaSchemaInfos s) <= maxNumberOfDiffsToLoad)%nat ->
  deltaSchemaInfos (enqueue s v ids) =
    lastn maxNumberOfDiffsToLoad (deltaSchemaInfos s ++ [mkDelta v ids]).
Proof.
  intros Hlen. unfold Validator.enqueue, lastn. simpl.
  rewrite length_app. simpl.
  destruct (Nat.ltb_spec maxNumberOfDiffsToLoad (length (deltaSchemaInfos s) + 1)).
  - f_equal. lia.
  - by replace (length (deltaSchemaInfos s) + 1 - maxNumberOfDiffsToLoad)%nat with O by lia.
Qed.

Lemma Update_started s ts old new ids :
  isStarted (Update s ts old new ids) = isStarted s.
Proof.
  unfold Validator.Update. destruct (isStarted s) eqn:Hs; simpl; [|done].
  by destruct (new =? old).
Qed.

Lemma Update_deltas s ts old new ids :
  isStarted s = true ->
  (length (deltaSchemaInfos s) <= maxNumberOfDiffsToLoad)%nat ->
  deltaSchemaInfos (Update s ts old new ids) =
    if new =? old then deltaSchemaInfos s
    else lastn maxNumberOfDiffsToLoad (deltaSchemaInfos s ++ [mkDelta new ids]).
Proof.
  intros Hs Hlen. unfold Validator.Update. rewrite Hs. cbn [negb].
  destruct (new =? old); cbn [negb]; [done|].
  match goal with
  | |- deltaSchemaInfos (Validator.enqueue _ ?s1 _ _) = _ => exact (enqueue_deltas s1 new ids Hlen)
  end.
Qed.

Lemma runUpdates_deltas s us :
  isStarted s = true ->
  (length (deltaSchemaInfos s) <= maxNumberOfDiffsToLoad)%nat ->
  deltaSchemaInfos (runUpdates s us) =
    lastn maxNumberOfDiffsToLoad (deltaSchemaInfos s ++ appended us).
Proof.
  revert s. induction us as [|u us IH]; intros s Hs Hlen; simpl.
  - rewrite app_nil_r. by rewrite lastn_short.
  - rewrite IH.
    + rewrite Update_deltas by done. unfold appended. simpl.
      destruct (u_currVer u =? u_oldVer u); [done|].
      rewrite lastn_app_lastn. by rewrite <- app_assoc.
    + by rewrite Update_started.
    + rewrite Update_deltas by done.
      destruct (u_currVer u =? u_oldVer u); [done|]. apply length_lastn.
Qed.

(** C9: after any run of [Update] calls on a new validator the delta
    queue holds at most [maxNumberOfDiffsToLoad] entries and is the last
    [maxNumberOfDiffsToLoad] of the appended entries, in their order; a
    further append on a queue that is full drops exactly its oldest
    entry, and drops nothing otherwise. *)
Theorem delta_queue_bounded (lease : Z) (us : list updateCall) :
  let s := runUpdates (NewSchemaValidator lease) us in
  (length (deltaSchemaInfos s) <= maxNumberOfDiffsToLoad)%nat /\
  deltaSchemaInfos s = lastn maxNumberOfDiffsToLoad (appended us) /\
  forall ts old new ids,
    new <> old ->
    deltaSchemaInfos (Update s ts old new ids) =
      if (length (deltaSchemaInfos s) <? maxNumberOfDiffsToLoad)%nat
      then deltaSchemaInfos s ++ [mkDelta new ids]
      else drop 1 (deltaSchemaInfos s ++ [mkDelta new ids]).
Proof.
  intros s.
  assert (deltaSchemaInfos s = lastn maxNumberOfDiffsToLoad (appended us)) as Hq.
  { unfold s. rewrite runUpdates_deltas; simpl; [done|done|lia]. }
  assert (length (deltaSchemaInfos s) <= maxNumberOfDiffsToLoad)%nat as Hlen.
  { rewrite Hq. apply length_lastn. }
  split; [done|]. split; [done|].
  intros ts old new ids Hne.
  assert (isStarted s = true) as Hs.
  { unfold s. clear. generalize (NewSchemaValidator lease) (eq_refl : isStarted (NewSchemaValidator lease) = true).
    induction us as [|u us IH]; intros s0 Hs0; simpl; [done|].
    apply IH. by rewrite Update_started. }
  rewrite Update_deltas by done.
  destruct (Z.eqb_spec new old); [done|].
  unfold lastn. rewrite length_app. simpl.
  destruct (Nat.ltb_spec (length (deltaSchemaInfos s)) maxNumberOfDiffsToLoad).
  - by replace (length (deltaSchemaInfos s) + 1 - maxNumberOfDiffsToLoad)%nat with O by lia.
  - f_equal. lia.
Qed.

End ValidatorProps.

(** *** The validator on concrete runs *)

Section ValidatorRuns.
Import Validator Samples.
#[local] Existing Instance ZTime.

(** C2, as stated, fails: after these updates the delta of version 10
    is newer than version 3 and names table 1, while [Check] at version
    3 for table 1 scans only the newest delta and answers Succ. *)
Lemma Check_scans_suffix_only :
  let s := runUpdates 100 (NewSchemaValidator (10 * Second)) unorderedUpdates in
  isStarted s = true /\ lease s <> 0 /\ 3 < latestSchemaVer s /\
  (exists d, d ∈ deltaSchemaInfos s /\ 3 < schemaVersion d /\ touches [1] d) /\
  Check s 0 3 [1] = ResultSucc.
Proof.
  cbv zeta. split; [reflexivity|]. split; [vm_compute; discriminate|].
  split; [vm_compute; reflexivity|]. split; [|vm_compute; reflexivity].
  exists (mkDelta 10 [1]). split; [vm_compute; apply list_elem_of_here|].
  split; [vm_compute; reflexivity|].
  exists 1. split; apply list_elem_of_here.
Qed.

(** [Check_decides] on the same run, for table 7: the newest delta is
    the newer suffix and names the table, the answer is Fail. *)
Lemma Check_decides_witness :
  let s := runUpdates 100 (NewSchemaValidator (10 * Second)) unorderedUpdates in
  newer_suffix (deltaSchemaInfos s) 3 [mkDelta 5 [7]] /\
  Check s 0 3 [7] = ResultFail.
Proof.
  cbv zeta.
  set (s := runUpdates 100 (NewSchemaValidator (10 * Second)) unorderedUpdates).
  assert (newer_suffix (deltaSchemaInfos s) 3 [mkDelta 5 [7]]) as Hsuf.
  { exact (findNewerDeltas_newer_suffix s 3). }
  split; [exact Hsuf|].
  destruct (Check_decides s 0 3 [7] [mkDelta 5 [7]] Hsuf) as (_ & _ & Hstale & _).
  destruct Hstale as [Hfail _]; [reflexivity|vm_compute; discriminate|vm_compute; reflexivity|].
  apply Hfail. right. right. exists (mkDelta 5 [7]).
  split; [apply list_elem_of_here|].
  exists 7. split; apply list_elem_of_here.
Defined.

(** C3, as stated, fails: an update sets version 5; after [Stop] and
    [Restart] the version is 0, and a transaction at version 3 on the
    changed table, which failed before, now succeeds. *)
Lemma Restart_after_Stop_forgets_version :
  let s0 := Update 100 (NewSchemaValidator (10 * Second)) 0 1 5 [1] in
  let s1 := Restart (Stop s0) in
  latestSchemaVer s0 = 5 /\ latestSchemaVer s1 = 0 /\
  Check s0 0 3 [1] = ResultFail /\ Check s1 0 3 [1] = ResultSucc.
Proof. cbv zeta. repeat split; vm_compute; reflexivity. Qed.

(** After an update and a [Reset], a check at a version that is not
    negative succeeds on the expiry that the update recorded. *)
Example Check_after_Reset :
  let s0 := Update 100 (NewSchemaValidator (10 * Second)) 0 1 5 [1] in
  latestSchemaExpire (Reset s0) = 10 * Second - Millisecond /\
  Check (Reset s0) 0 7 [1] = ResultSucc.
Proof. cbv zeta. split; vm_compute; reflexivity. Qed.

(** With room for two deltas, three appended entries leave the last
    two. *)
Example delta_queue_of_two :
  deltaSchemaInfos (runUpdates 2 (NewSchemaValidator (10 * Second)) unorderedUpdates)
  = [mkDelta 2 []; mkDelta 5 [7]].
Proof. vm_compute. reflexivity. Qed.

End ValidatorRuns.

(** ** The DDL worker *)

Section WorkerProps.
Import Model Meta DDL DDLSpec.
Context `{KVStore} `{DDLEnv}.

Implicit Types (job cur dep : Job) (jobs : list Job) (t : Meta) (e : error).

(** *** [buildJobDependence] *)

Lemma buildJobDependence_otherQueue t cur :
  buildJobDependence t cur =
    match GetAllDDLJobsInQueue t (otherQueue (JobType cur)) with
    | Err e => (cur, Some e)
    | Ok jobs => buildJobDependence_loop jobs cur
    end.
Proof. unfold buildJobDependence, otherQueue. by destruct (JobType cur). Qed.

(** The loop stops at the first job of the snapshot that is not newer
    than the current job and on which the current job depends. *)
Lemma buildJobDependence_loop_first skipped dep rest cur :
  Forall (fun job => ID cur < ID job \/ IsDependentOn cur job = Ok false) skipped ->
  ID dep <= ID cur -> IsDependentOn cur dep = Ok true ->
  buildJobDependence_loop (skipped ++ dep :: rest) cur = (set_DependencyID cur (ID dep), None).
Proof.
  intros Hskip Hle Hdep. induction Hskip as [|job skipped Hjob _ IH]; simpl.
  - destruct (Z.ltb_spec (ID cur) (ID dep)); [lia|]. by rewrite Hdep.
  - destruct Hjob as [Hnew|Hno].
    + destruct (Z.ltb_spec (ID cur) (ID job)); [done|lia].
    + destruct (Z.ltb_spec (ID cur) (ID job)); [done|]. by rewrite Hno.
Qed.



(** *** [updateSchemaVersion] *)

Lemma newMetaWithQueueTp_action view startTS (a : ActionType) :
  newMetaWithQueueTp view startTS (ActionType_String a) = NewMeta view startTS (ownQueue a).
Proof. unfold newMetaWithQueueTp. by destruct a. Qed.

Lemma newMetaWithQueueTp_worker view startTS (w : worker) :
  newMetaWithQueueTp view startTS (typeStr w) = NewMeta view startTS (workerQueue w).
Proof. unfold newMetaWithQueueTp, typeStr, workerQueue. by destruct (tp w). Qed.

(** C6 (amended): [updateSchemaVersion] succeeds exactly when the store
    answers the version increment and the write without an error and the
    argument of a truncate or rename job decodes.  It then returns the
    next schema version and has written one diff, keyed by that version,
    with the job's type and schema ID.  For a truncate job the diff has
    the decoded new table ID and the job's table ID as the old one; for
    a rename job it has the job's table ID and the decoded old schema ID,
    and no old table ID; for any other job it has the job's table ID.
    When it fails no diff is written. *)
Theorem updateSchemaVersion_writes_diff t job :
  let '(ver, err, t') := updateSchemaVersion t job in
  let v := globalSchemaVersion (txn t) + 1 in
  (err = None <->
     kvErr OpGenSchemaVersion (txn t) = None /\
     (JobType job = ActionTruncateTable \/ JobType job = ActionRenameTable ->
        exists z, DecodeArgs_int64 job = Ok z) /\
     kvErr OpSetSchemaDiff (bumpedVersion (txn t)) = None) /\
  match err with
  | None =>
      ver = v /\
      exists diff,
        txn t' = mkStore (nextGlobalID (txn t)) v (<[v := diff]> (schemaDiffs (txn t)))
                         (defaultJobList (txn t)) (addIndexJobList (txn t))
                         (historyJobs (txn t)) /\
        diff_Version diff = v /\ diff_Type diff = JobType job /\
        diff_SchemaID diff = SchemaID job /\
        match JobType job with
        | ActionTruncateTable =>
            DecodeArgs_int64 job = Ok (diff_TableID diff) /\
            diff_OldTableID diff = TableID job /\ diff_OldSchemaID diff = 0
        | ActionRenameTable =>
            DecodeArgs_int64 job = Ok (diff_OldSchemaID diff) /\
            diff_TableID diff = TableID job /\ diff_OldTableID diff = 0
        | _ =>
            diff_TableID diff = TableID job /\
            diff_OldTableID diff = 0 /\ diff_OldSchemaID diff = 0
        end
  | Some _ => schemaDiffs (txn t') = schemaDiffs (txn t)
  end.
Proof.
  unfold updateSchemaVersion, GenSchemaVersion, SetSchemaDiff, bumpedVersion.
  destruct (kvErr OpGenSchemaVersion (txn t)) as [e|] eqn:Hgen; simpl.
  { split; [|done]. split; [done|]. by intros (? & _). }
  set (s1 := mkStore _ _ _ _ _ _).
  destruct (decide (JobType job = ActionTruncateTable)) as [Htr|Htr];
    [|destruct (decide (JobType job = ActionRenameTable)) as [Hrn|Hrn]].
  - rewrite Htr. destruct (DecodeArgs_int64 job) as [z|e] eqn:Hdec; simpl.
    + destruct (kvErr OpSetSchemaDiff s1) as [e|] eqn:Hset; simpl.
      * split; [|done]. split; [done|]. by intros (_ & _ & ?).
      * split; [split; [intros _|done]; split; [done|]; split; [by eauto|done]|].
        split; [done|]. eexists. split; [reflexivity|]. done.
    + split; [|done]. split; [done|]. intros (_ & Hz & _).
      destruct Hz as [z Hz]; [by left|]. congruence.
  - rewrite Hrn. destruct (DecodeArgs_int64 job) as [z|e] eqn:Hdec; simpl.
    + destruct (kvErr OpSetSchemaDiff s1) as [e|] eqn:Hset; simpl.
      * split; [|done]. split; [done|]. by intros (_ & _ & ?).
      * split; [split; [intros _|done]; split; [done|]; split; [by eauto|done]|].
        split; [done|]. eexists. split; [reflexivity|]. done.
    + split; [|done]. split; [done|]. intros (_ & Hz & _).
      destruct Hz as [z Hz]; [by right|]. congruence.
  - assert (match JobType job with
            | ActionTruncateTable =>
                match DecodeArgs_int64 job with
                | Ok newTableID =>
                    Ok (mkSchemaDiff (globalSchemaVersion (txn t) + 1) (JobType job)
                          (SchemaID job) newTableID (TableID job) 0)
                | Err e => Err e
                end
            | ActionRenameTable =>
                match DecodeArgs_int64 job with
                | Ok oldSchemaID =>
                    Ok (mkSchemaDiff (globalSchemaVersion (txn t) + 1) (JobType job)
                          (SchemaID job) (TableID job) 0 oldSchemaID)
                | Err e => Err e
                end
            | _ => Ok (mkSchemaDiff (globalSchemaVersion (txn t) + 1) (JobType job)
                         (SchemaID job) (TableID job) 0 0)
            end = Ok (mkSchemaDiff (globalSchemaVersion (txn t) + 1) (JobType job)
                         (SchemaID job) (TableID job) 0 0)) as ->.
    { by destruct (JobType job). }
    destruct (kvErr OpSetSchemaDiff s1) as [e|] eqn:Hset; simpl.
    + split; [|done]. split; [done|]. by intros (_ & _ & ?).
    + split; [split; [intros _|done]; split; [done|]; split; [|done]; by intros [?|?]|].
      split; [done|]. eexists. split; [reflexivity|]. simpl.
      by destruct (JobType job).
Qed.

(** *** [addDDLJob] *)


(** *** [runDDLJob] *)

Lemma started_JobType job : JobType (started job) = JobType job.
Proof. unfold started. by destruct (_ && _). Qed.

(** C8: when the step of a job returns an error and does not leave the
    job cancelled, [runDDLJob] saves the error in the job and increments
    the job's error count; it then sets the state to cancelling exactly
    when the new count exceeds the limit, the job is running and the job
    can be rolled back, and otherwise leaves the state as the step left
    it; in both cases it returns the step's error, for the worker to try
    again. *)
Theorem runDDLJob_saves_error w d t job job1 t1 ver e :
  IsFinished job = false -> IsCancelling job = false ->
  runDDLJob_switch d t (started job) = Returned job1 t1 ver (Some e) ->
  State job1 <> JobStateCancelled ->
  let job2 := set_ErrorCount (set_Error job1 (Some (toTError e))) (wrap64 (ErrorCount job1 + 1)) in
  let exceeded :=
    (GetDDLErrorCountLimit <? ErrorCount job2)
    && bool_decide (State job1 = JobStateRunning) && IsJobRollbackable job2 in
  Error job2 = Some (toTError e) /\
  ErrorCount job2 = wrap64 (ErrorCount job1 + 1) /\
  (- 2 ^ 63 <= ErrorCount job1 < 2 ^ 63 - 1 -> ErrorCount job2 = ErrorCount job1 + 1) /\
  State job2 = State job1 /\
  runDDLJob w d t job =
    Returned (if exceeded then set_State job2 JobStateCancelling else job2) t1 ver (Some e).
Proof.
  intros Hfin Hcan Hstep Hstate job2 exceeded.
  split; [done|]. split; [done|].
  split; [intros Hrange; simpl; apply wrap64_id; unfold int64_range; lia|].
  split; [done|].
  unfold runDDLJob. fold (started job). rewrite Hfin, Hcan, Hstep.
  fold job2. change (State job2) with (State job1).
  by rewrite bool_decide_false.
Qed.

(** A job that is not cancelled is written back at the head of the
    queue when the store takes the update: it stays queued, with the
    error and the error count that [runDDLJob] saved in it. *)
Lemma handleDDLJobQueue_save_requeues w once snapshot t job ver runJobErr head rest :
  IsCancelled job = false ->
  kvErr OpUpdateDDLJob (txn t) = None ->
  jobList (jobListKey t) (txn t) = head :: rest ->
  exists out stored,
    handleDDLJobQueue_save w once snapshot t job ver runJobErr =
      (out, set_jobList (jobListKey t) (txn t) (stored :: rest), None) /\
    o_job out = Some job /\ o_runJobErr out = runJobErr /\
    ID stored = ID job /\ State stored = State job /\
    Error stored = Error job /\ ErrorCount stored = ErrorCount job.
Proof.
  intros Hcancelled Hkv Hq.
  unfold handleDDLJobQueue_save, updateDDLJob, UpdateDDLJob.
  rewrite Hcancelled, Hkv, Hq. cbn [length].
  rewrite bool_decide_true by lia.
  cbn [handleUpdateJobError txn set_txn].
  eexists _, _. split; [reflexivity|]. cbn [o_job o_runJobErr].
  by destruct (_ && _).
Qed.

(** *** [finishDDLJob] and [handleDDLJobQueue] *)

Lemma jobList_set_jobList key (s : Store) (l : list Job) : jobList key (set_jobList key s l) = l.
Proof. by destruct key. Qed.

Lemma historyJobs_set_jobList key (s : Store) (l : list Job) :
  historyJobs (set_jobList key s l) = historyJobs s.
Proof. by destruct key. Qed.

(** When [finishDDLJob] returns no error it has removed the head of the
    queue and put the job into the history, within the transaction. *)
Lemma finishDDLJob_moves w t job :
  match finishDDLJob w t job with
  | (job', t', None) =>
      ID job' = ID job /\ State job' = State job /\
      jobList (jobListKey t) (txn t') = drop 1 (jobList (jobListKey t) (txn t)) /\
      historyJobs (txn t') = <[ID job := job']> (historyJobs (txn t))
  | (_, _, Some _) => True
  end.
Proof.
  unfold finishDDLJob.
  match goal with |- context [match ?x with Some e => (job, t, Some e) | None => _ end] =>
    destruct x as [e|] end; [done|].
  unfold DeQueueDDLJob.
  destruct (kvErr OpDeQueueDDLJob (txn t)); [done|].
  destruct (jobList (jobListKey t) (txn t)) as [|head rest] eqn:Hq.
  - unfold AddHistoryDDLJob. destruct (kvErr OpAddHistoryDDLJob (txn t)); [done|].
    cbn [txn set_txn]. by repeat split.
  - unfold AddHistoryDDLJob. cbn [txn set_txn].
    destruct (kvErr OpAddHistoryDDLJob _); [done|].
    cbn [txn set_txn jobListKey metaStartTS]. repeat split; try done.
    + destruct (jobListKey t); simpl in *; done.
    + by rewrite historyJobs_set_jobList.
Qed.

Lemma same_queues_refl t job : same_queues t job t job.
Proof. by repeat split. Qed.

Lemma same_queues_jobList t job t' job' key :
  same_queues t job t' job' -> jobList key (txn t') = jobList key (txn t).
Proof. intros (_ & _ & _ & Hd & Ha & _). by destruct key. Qed.

Lemma runDDLJob_switch_keeps_queues d t job :
  keeps_queues runStep ->
  match runDDLJob_switch d t job with
  | Returned job' t' _ _ | Panicked job' t' => same_queues t job t' job'
  end.
Proof.
  intros Hstep. unfold runDDLJob_switch.
  destruct (JobType job); try apply Hstep. by repeat split.
Qed.

Lemma runDDLJob_keeps_queues w d t job :
  keeps_queues runStep -> keeps_queues convertJob2RollbackJob ->
  match runDDLJob w d t job with
  | Returned job' t' _ _ | Panicked job' t' => same_queues t job t' job'
  end.
Proof.
  intros Hstep Hconv. unfold runDDLJob. fold (started job).
  destruct (IsFinished job); [apply same_queues_refl|].
  destruct (IsCancelling job); [apply Hconv|].
  assert (ID (started job) = ID job) as Hid.
  { unfold started. by destruct (_ && _). }
  pose proof (runDDLJob_switch_keeps_queues d t (started job) Hstep) as Hinner.
  unfold same_queues in *. rewrite Hid in Hinner.
  destruct (runDDLJob_switch d t (started job)) as [job1 t1 ver [e|]|job1 t1]; try done.
  case_bool_decide; [exact Hinner|]. destruct (_ && _ && _); exact Hinner.
Qed.

Lemma handleDDLJobQueue_save_step w once snapshot t job ver runJobErr head rest :
  jobList (jobListKey t) snapshot = head :: rest ->
  jobList (jobListKey t) (txn t) = head :: rest ->
  historyJobs (txn t) = historyJobs snapshot ->
  ID job = ID head ->
  match handleDDLJobQueue_save w once snapshot t job ver runJobErr with
  | (_, view', None) => queue_step (jobListKey t) snapshot view'
  | (_, _, Some _) => True
  end.
Proof.
  intros Hsnap Hq Hhist Hid. unfold handleDDLJobQueue_save.
  destruct (IsCancelled job) eqn:Hcancelled.
  - pose proof (finishDDLJob_moves w (set_txn t snapshot) job) as Hfin.
    destruct (finishDDLJob w (set_txn t snapshot) job) as [[job' t'] [e|]]; [done|].
    cbn [txn set_txn jobListKey] in Hfin. destruct Hfin as (Hid' & Hst & Hq' & Hh').
    right. right. exists head, rest, job'.
    apply bool_decide_eq_true in Hcancelled.
    rewrite Hsnap in Hq'. rewrite Hid in Hh', Hid'. rewrite Hcancelled in Hst.
    unfold terminal. by repeat split; auto.
  - unfold updateDDLJob, UpdateDDLJob.
    destruct (kvErr OpUpdateDDLJob (txn t)) as [e|].
    + unfold handleUpdateJobError. case_bool_decide; [|done].
      match goal with |- context [finishDDLJob w t ?j] =>
        pose proof (finishDDLJob_moves w t j) as Hfin;
        destruct (finishDDLJob w t j) as [[job' t'] [e'|]] end; [done|].
      cbn [ID State set_State set_SchemaState set_Error set_BinlogInfo] in Hfin.
      destruct Hfin as (Hid' & Hst & Hq' & Hh').
      right. right. exists head, rest, job'.
      rewrite Hq in Hq'. rewrite Hid, Hhist in Hh'. rewrite Hid in Hid'.
      unfold terminal. by repeat split; auto.
    + rewrite Hq. cbn [length].
      rewrite bool_decide_true by lia.
      cbn [handleUpdateJobError txn set_txn].
      right. left.
      eexists head, rest, _.
      rewrite jobList_set_jobList, historyJobs_set_jobList.
      split; [done|]. split; [reflexivity|]. split; [|done].
      by destruct (_ && _).
Qed.

Lemma handleDDLJobQueue_run_step w d once snapshot t job head rest :
  keeps_queues runStep -> keeps_queues convertJob2RollbackJob ->
  (forall job, ID (OnJobRunBefore job) = ID job) ->
  txn t = snapshot ->
  jobList (jobListKey t) snapshot = head :: rest ->
  ID job = ID head ->
  match handleDDLJobQueue_run w d once snapshot t job with
  | (_, view', None) => queue_step (jobListKey t) snapshot view'
  | (_, _, Some _) => True
  end.
Proof.
  intros Hstep Hconv Hhook Ht Hsnap Hid. unfold handleDDLJobQueue_run.
  pose proof (runDDLJob_keeps_queues w d t (OnJobRunBefore job) Hstep Hconv) as Hkeep.
  destruct (runDDLJob w d t (OnJobRunBefore job)) as [job1 t1 ver err|job1 t1];
    pose proof (same_queues_jobList _ _ _ _ (jobListKey t) Hkeep) as Hq;
    destruct Hkeep as (Hid1 & Hkey & _ & _ & _ & Hhist);
    rewrite Hhook, Hid in Hid1;
    rewrite <- Hkey;
    apply handleDDLJobQueue_save_step with (head := head) (rest := rest);
    rewrite ?Hkey; cbn [ID set_State]; congruence.
Qed.

Lemma queue_step_refl key (s : Store) : queue_step key s s.
Proof. by left. Qed.

Lemma handleDDLJobQueue_ready_step w d once waitTime view t job head rest :
  keeps_queues runStep -> keeps_queues convertJob2RollbackJob ->
  (forall job, ID (OnJobRunBefore job) = ID job) ->
  txn t = view ->
  jobList (jobListKey t) view = head :: rest ->
  ID job = ID head ->
  match handleDDLJobQueue_ready w d once waitTime view t job with
  | (_, view', None) => queue_step (jobListKey t) view view'
  | (_, _, Some _) => True
  end.
Proof.
  intros Hstep Hconv Hhook Ht Hq Hid. unfold handleDDLJobQueue_ready.
  destruct once; [rewrite Ht; apply queue_step_refl|].
  destruct (IsDone job || IsRollbackDone job) eqn:Hdone;
    [|by apply handleDDLJobQueue_run_step with (head := head) (rest := rest)].
  set (job1 := if negb (IsRollbackDone job) then set_State job JobStateSynced else job).
  assert (ID job1 = ID head /\ terminal (State job1)) as [Hid1 Hterm].
  { unfold job1, terminal. destruct (IsRollbackDone job) eqn:Hrb; simpl; [|by auto].
    apply bool_decide_eq_true in Hrb. by auto. }
  pose proof (finishDDLJob_moves w t job1) as Hfin.
  destruct (finishDDLJob w t job1) as [[job' t'] [e|]]; [done|].
  destruct Hfin as (Hid' & Hst & Hq' & Hh').
  rewrite Ht, Hq in Hq'. rewrite Ht, Hid1 in Hh'. rewrite Hid1 in Hid'. rewrite <- Hst in Hterm.
  right. right. by exists head, rest, job'.
Qed.

Lemma handleDDLJobQueue_txn_step w d once owner startTS waitTime view :
  keeps_queues runStep -> keeps_queues convertJob2RollbackJob ->
  (forall job, ID (OnJobRunBefore job) = ID job) ->
  match handleDDLJobQueue_txn w d once owner startTS waitTime view with
  | (_, view', None) => queue_step (workerQueue w) view view'
  | (_, _, Some _) => True
  end.
Proof.
  intros Hstep Hconv Hhook. unfold handleDDLJobQueue_txn.
  destruct owner; cbn [negb]; [|apply queue_step_refl].
  rewrite newMetaWithQueueTp_worker.
  set (t := NewMeta view startTS (workerQueue w)).
  unfold getFirstDDLJob, GetDDLJobByIdx.
  destruct (kvErr OpGetDDLJobByIdx (txn t)); [done|].
  change (jobList (jobListKey t) (txn t)) with (jobList (workerQueue w) view).
  destruct (jobList (workerQueue w) view) as [|head rest] eqn:Hq; cbn [lookup list_lookup];
    [apply queue_step_refl|].
  unfold isDependencyJobDone.
  destruct (DependencyID head =? noneDependencyJob).
  - by apply (handleDDLJobQueue_ready_step w d once waitTime view t head head rest).
  - destruct (GetHistoryDDLJob t (DependencyID head)) as [[dep|]|e];
      [|apply queue_step_refl|done].
    by apply (handleDDLJobQueue_ready_step w d once waitTime view t _ head rest).
Qed.

(** C5: a committed iteration of [handleDDLJobQueue] leaves the
    worker's queue and the history as they were, or replaces the head job
    by a job of the same ID, or removes the head job and, in the same
    transaction, puts it into the history in a terminal state (synced,
    cancelled or rollback done).  So every job of the queue is, after the
    iteration, still in the queue or in the history in a terminal state.
    This holds when the step functions and the callback leave the job's
    ID, the queues and the history alone. *)
Theorem job_leaves_queue_with_history w d st store quit owner startTS :
  keeps_queues runStep -> keeps_queues convertJob2RollbackJob ->
  (forall job, ID (OnJobRunBefore job) = ID job) ->
  let store' := it_store (handleDDLJobQueue_iter w d st store quit owner startTS) in
  queue_step (workerQueue w) store store' /\
  forall job, job ∈ jobList (workerQueue w) store ->
    (exists job', job' ∈ jobList (workerQueue w) store' /\ ID job' = ID job) \/
    (exists h, historyJobs store' !! ID job = Some h /\ ID h = ID job /\ terminal (State h)).
Proof.
  intros Hstep Hconv Hhook store'.
  assert (queue_step (workerQueue w) store store') as Hqs.
  { unfold store', handleDDLJobQueue_iter. destruct quit; [apply queue_step_refl|].
    unfold RunInNewTxn.
    pose proof (handleDDLJobQueue_txn_step w d (once st) owner startTS
                  (wrap64 (2 * lease d)) store Hstep Hconv Hhook) as Htxn.
    destruct (handleDDLJobQueue_txn w d (once st) owner startTS (wrap64 (2 * lease d)) store)
      as [[out view] [e|]]; cbn [it_store].
    - apply queue_step_refl.
    - destruct (kvErr OpCommit view); cbn [it_store]; [apply queue_step_refl|].
      destruct (o_job out); [|done].
      by destruct (waitDependencyJobFinished _ _). }
  split; [done|].
  intros job Hin.
  destruct Hqs as [[Hq _]|[(head & rest & job' & Hq & Hq' & Hid & _)|
                           (head & rest & h & Hq & Hq' & Hid & Hterm & Hhist)]].
  - left. exists job. by rewrite Hq.
  - rewrite Hq in Hin. rewrite Hq'. apply elem_of_cons in Hin as [->|Hin].
    + left. exists job'. split; [apply list_elem_of_here|done].
    + left. exists job. split; [by apply list_elem_of_further|done].
  - rewrite Hq in Hin. rewrite Hq'. apply elem_of_cons in Hin as [->|Hin].
    + right. exists h. rewrite Hhist. by rewrite lookup_insert_eq.
    + left. by exists job.
Qed.

(** *** [waitSchemaChanged] *)

(** [chooseLeaseTime], which sets the period of the worker's ticker,
    never exceeds its second argument: that one is a cap. *)
Lemma chooseLeaseTime_cap (t max : Z) :
  chooseLeaseTime t max = max \/ (chooseLeaseTime t max = t /\ t <> 0 /\ t <= max).
Proof.
  unfold chooseLeaseTime.
  destruct (Z.eqb_spec t 0); [by left|].
  destruct (Z.ltb_spec max t); [by left|]. by right.
Qed.


Lemma waitSchemaChanged_skips ctx d waitTime ver job :
  waitable job = false \/ waitTime = 0 \/ ver = 0 ->
  waitSchemaChanged ctx d waitTime ver job = [].
Proof.
  unfold waitSchemaChanged, waitable. intros [Hw|[->| ->]].
  - destruct (IsRunning job), (IsRollingback job), (IsDone job), (IsRollbackDone job);
      simpl in *; done.
  - by destruct (_ && _ && _ && _).
  - destruct (_ && _ && _ && _); [done|]. by destruct (waitTime =? 0).
Qed.



End WorkerProps.

(** *** The worker on concrete runs *)

Section WorkerRuns.
Import Model Meta DDL DDLSpec Samples.

(** The order of the snapshot is what makes the first match the
    largest: were the jobs listed from the head of the queue on, the
    job, which depends on both queued jobs, of IDs 1 and 2, would get
    the [DependencyID] 1, the first of the snapshot. *)
Lemma buildJobDependence_takes_first :
  let t := NewMeta twoJobs 0 AddIndexJobListKey in
  @GetAllDDLJobsInQueue (sampleKV false) t (otherQueue (JobType job4)) = Ok [job1; job2] /\
  @buildJobDependence (sampleKV false) (sampleEnv idleStep) t job4
    = (set_DependencyID job4 1, None) /\
  ID job2 < ID job4 /\ @IsDependentOn (sampleEnv idleStep) job4 job2 = Ok true /\
  1 < ID job2.
Proof. cbv zeta. repeat split; vm_compute; reflexivity. Qed.


(** C6, as stated, fails for a rename job: the diff that is written has
    the job's table ID and the decoded old schema ID; its old table ID
    is not set, so it does not carry an old and a new table ID. *)
Lemma rename_diff_has_no_old_TableID :
  let '(ver, err, t') :=
    @updateSchemaVersion (sampleKV false) (sampleEnv idleStep)
      (NewMeta emptyStore 0 DefaultJobListKey) renameJob in
  ver = 1 /\ err = None /\
  schemaDiffs (txn t') !! 1 = Some (mkSchemaDiff 1 ActionRenameTable 1 7 0 9) /\
  ~ carries_old_and_new_TableID renameJob 9 (mkSchemaDiff 1 ActionRenameTable 1 7 0 9).
Proof.
  vm_compute. repeat split; try reflexivity. intros [Hold _]. discriminate Hold.
Qed.



Lemma bumpStep_keeps_queues : keeps_queues bumpStep.
Proof.
  intros d t job. unfold bumpStep, updateSchemaVersion. simpl.
  destruct (JobType job); simpl; try by repeat split.
  all: destruct (Args job) as [[|[z|s|b] args]|]; by repeat split.
Qed.

Lemma sample_convert_keeps_queues :
  keeps_queues (@convertJob2RollbackJob (sampleEnv bumpStep)).
Proof. intros d t job. by repeat split. Qed.

(** [job_leaves_queue_with_history] on a queue whose head job is done:
    the iteration moves it to the history, synced. *)
Lemma job_leaves_queue_with_history_witness :
  let store' :=
    it_store (@handleDDLJobQueue_iter (sampleKV false) (sampleEnv bumpStep) generalW
                (mkDdlCtx Second) running doneAtHead false true 5) in
  keeps_queues (@runStep (sampleEnv bumpStep)) /\
  keeps_queues (@convertJob2RollbackJob (sampleEnv bumpStep)) /\
  (forall job, ID (@OnJobRunBefore (sampleEnv bumpStep) job) = ID job) /\
  (jobList DefaultJobListKey store' = [job2] /\
   State <$> historyJobs store' !! 1 = Some JobStateSynced) /\
  (queue_step (workerQueue generalW) doneAtHead store' /\
   forall job, job ∈ jobList (workerQueue generalW) doneAtHead ->
     (exists job', job' ∈ jobList (workerQueue generalW) store' /\ ID job' = ID job) \/
     (exists h, historyJobs store' !! ID job = Some h /\ ID h = ID job /\
                terminal (State h))).
Proof.
  cbv zeta.
  split; [exact bumpStep_keeps_queues|].
  split; [exact sample_convert_keeps_queues|].
  split; [reflexivity|].
  split; [split; vm_compute; reflexivity|].
  exact (@job_leaves_queue_with_history (sampleKV false) (sampleEnv bumpStep) generalW
           (mkDdlCtx Second) running doneAtHead false true 5
           bumpStep_keeps_queues sample_convert_keeps_queues (fun _ => eq_refl)).
Defined.

(** [runDDLJob_saves_error] on a running job that has failed twice,
    with a limit of two errors: the third error cancels it. *)
Lemma runDDLJob_saves_error_witness :
  let t := NewMeta twoJobs 5 DefaultJobListKey in
  let d := mkDdlCtx Second in
  IsFinished failedTwice = false /\ IsCancelling failedTwice = false /\
  @runDDLJob_switch (sampleEnv failingStep) d t (started failedTwice)
    = Returned failedTwice t 0 (Some (ErrTerror 7)) /\
  State failedTwice <> JobStateCancelled /\
  @runDDLJob (sampleEnv failingStep) generalW d t failedTwice =
    Returned (set_State (set_ErrorCount (set_Error failedTwice (Some (ErrTerror 7))) 3)
                JobStateCancelling) t 0 (Some (ErrTerror 7)).
Proof.
  cbv zeta. split; [reflexivity|]. split; [reflexivity|]. split; [reflexivity|].
  split; [discriminate|].
  destruct (@runDDLJob_saves_error (sampleEnv failingStep) generalW (mkDdlCtx Second)
              (NewMeta twoJobs 5 DefaultJobListKey) failedTwice failedTwice
              (NewMeta twoJobs 5 DefaultJobListKey) 0 (ErrTerror 7))
    as (_ & _ & _ & _ & Hrun); [reflexivity|reflexivity|reflexivity|discriminate|exact Hrun].
Defined.

End WorkerRuns.

(** ** More of the schema validator *)

Section ValidatorMore.
Import Validator ValidatorCalls.
Context `{TimeOps}.
Variable maxNumberOfDiffsToLoad : nat.

Local Abbreviation enqueue := (enqueue maxNumberOfDiffsToLoad).
Local Abbreviation Update := (Update maxNumberOfDiffsToLoad).
Local Abbreviation runUpdates := (runUpdates maxNumberOfDiffsToLoad).
Local Abbreviation call := (call maxNumberOfDiffsToLoad).
Local Abbreviation runCalls := (runCalls maxNumberOfDiffsToLoad).

Implicit Types (s : schemaValidator) (q l : list deltaSchemaInfo) (d : deltaSchemaInfo).

Lemma suffix_snoc_last {A} (m pre : list A) (x : A) :
  m `suffix_of` pre ++ [x] -> m = [] \/ exists m0, m = m0 ++ [x].
Proof.
  intros [k Hk]. destruct m as [|a m0 _] using rev_ind; [by left|].
  right. exists m0. rewrite app_assoc in Hk.
  apply app_inj_tail in Hk as [_ ->]. done.
Qed.

(** X1: [findNewerDeltas] returns the longest suffix of the delta queue
    whose entries all have a version greater than the given one; it is
    empty exactly when the queue is empty or its newest entry is not
    newer than the given version. *)
Theorem findNewerDeltas_longest_suffix s (v : Z) :
  newer_suffix (deltaSchemaInfos s) v (findNewerDeltas s v) /\
  (findNewerDeltas s v = [] <->
     deltaSchemaInfos s = [] \/
     exists pre d, deltaSchemaInfos s = pre ++ [d] /\ schemaVersion d <= v).
Proof.
  pose proof (findNewerDeltas_newer_suffix s v) as Hnewer. split; [done|].
  destruct Hnewer as (Hsuf & Hall & Hmax).
  destruct (deltaSchemaInfos s) as [|a q0] eqn:Hq using rev_ind.
  - split; [by left|]. intros _. by apply suffix_nil_inv.
  - clear IHq0. split.
    + intros Hnil. right. exists q0, a. split; [done|].
      destruct (Z.le_gt_cases (schemaVersion a) v) as [|Hgt]; [done|].
      assert (Forall (fun d => v < schemaVersion d) [a]) as Hone by (constructor; [lia|done]).
      specialize (Hmax [a] (suffix_app_r _ _ _ (reflexivity _)) Hone).
      rewrite Hnil in Hmax. simpl in Hmax. lia.
    + intros [Hnil|(pre & d & Heq & Hle)]; [by destruct q0|].
      apply app_inj_tail in Heq as [_ ->].
      destruct (suffix_snoc_last _ _ _ Hsuf) as [?|[l' Hl']]; [done|].
      rewrite Hl' in Hall. apply Forall_app in Hall as [_ Hd].
      rewrite Forall_singleton in Hd. exfalso. lia.
Qed.

(** X2: [hasRelatedTableID] is true exactly when its two lists share a
    table ID; the order of the two arguments does not matter. *)
Theorem hasRelatedTableID_shares (related update : list Z) :
  (hasRelatedTableID related update = true <-> exists t, t ∈ related /\ t ∈ update) /\
  hasRelatedTableID related update = hasRelatedTableID update related.
Proof.
  assert (forall a b, hasRelatedTableID a b = true <-> exists t, t ∈ a /\ t ∈ b) as Hiff.
  { intros a b. rewrite hasRelatedTableID_true. split; intros (t & ? & ?); eauto. }
  split; [apply Hiff|].
  destruct (hasRelatedTableID related update) eqn:H1,
           (hasRelatedTableID update related) eqn:H2; try done.
  - apply Hiff in H1 as (t & ? & ?).
    assert (hasRelatedTableID update related = true) by (apply Hiff; eauto). congruence.
  - apply Hiff in H2 as (t & ? & ?).
    assert (hasRelatedTableID related update = true) by (apply Hiff; eauto). congruence.
Qed.

(** *** [Update] followed by [Check] *)

Lemma Update_fields s ts old new ids :
  isStarted s = true ->
  isStarted (Update s ts old new ids) = true /\
  lease (Update s ts old new ids) = lease s /\
  latestSchemaVer (Update s ts old new ids) = new /\
  latestSchemaExpire (Update s ts old new ids) =
    timeAdd (GetTimeFromTS ts) (wrap64 (lease s - Millisecond)).
Proof.
  intros Hs. unfold Validator.Update. rewrite Hs. cbn [negb].
  by destruct (new =? old).
Qed.

Lemma Update_lease s ts old new ids : lease (Update s ts old new ids) = lease s.
Proof.
  unfold Validator.Update. destruct (isStarted s); cbn [negb]; [|done].
  by destruct (new =? old).
Qed.

(** After an append the queue is empty (a maximum of zero) or ends with
    the appended entry. *)
Lemma enqueue_ends s (v : Z) (ids : list Z) :
  deltaSchemaInfos (enqueue s v ids) = [] \/
  exists pre, deltaSchemaInfos (enqueue s v ids) = pre ++ [mkDelta v ids].
Proof.
  unfold Validator.enqueue. cbn [deltaSchemaInfos].
  destruct (_ <? _)%nat; [|by eauto].
  destruct (deltaSchemaInfos s) as [|a q]; [by left|]. right. by exists q.
Qed.

(** X4: after an [Update] to a new version on a started validator with
    a lease, a [Check] at any older version fails when it names no table
    or names a table that the update changed. *)
Theorem Update_then_Check_fails s ts old new changed txnTS schemaVer ids :
  isStarted s = true -> lease s <> 0 -> new <> old -> schemaVer < new ->
  (ids = [] \/ exists t, t ∈ ids /\ t ∈ changed) ->
  Check (Update s ts old new changed) txnTS schemaVer ids = ResultFail.
Proof.
  intros Hs Hl Hne Hv Hids.
  destruct (Update_fields s ts old new changed Hs) as (Hs' & Hl' & Hv' & _).
  set (s' := Update s ts old new changed) in *.
  apply Check_stale_fails; [done|congruence|lia|].
  destruct Hids as [?|Htouch]; [by left|right].
  assert (deltaSchemaInfos s' = [] \/
          exists pre, deltaSchemaInfos s' = pre ++ [mkDelta new changed]) as Hends.
  { unfold s', Validator.Update. rewrite Hs. cbn [negb].
    destruct (Z.eqb_spec new old); [done|]. cbn [negb]. apply enqueue_ends. }
  pose proof (findNewerDeltas_newer_suffix s' schemaVer) as (Hsuf & Hall & Hmax).
  destruct Hends as [Hnil|[pre Hpre]].
  - left. rewrite Hnil in Hsuf |- *. by apply suffix_nil_inv.
  - right. exists (mkDelta new changed). split; [|done].
    rewrite Hpre in Hsuf, Hmax.
    assert (Forall (fun d => schemaVer < schemaVersion d) [mkDelta new changed]) as Hone.
    { constructor; [simpl; lia|done]. }
    specialize (Hmax _ (suffix_app_r _ _ _ (reflexivity _)) Hone).
    destruct (suffix_snoc_last _ _ _ Hsuf) as [Hnil|[m Hm]].
    + rewrite Hnil in Hmax. simpl in Hmax. lia.
    + rewrite Hm. apply elem_of_app. right. apply list_elem_of_here.
Qed.

(** X5: after an [Update] on a started validator with a lease, a
    [Check] at the new version or a later one does not look at the
    tables: it succeeds when the transaction's time is not after the
    grant time plus the lease less a millisecond, and is unknown
    otherwise. *)
Theorem Update_then_Check_fresh s ts old new changed txnTS schemaVer ids :
  isStarted s = true -> lease s <> 0 -> new <= schemaVer ->
  Check (Update s ts old new changed) txnTS schemaVer ids =
    if timeAfter (GetTimeFromTS txnTS)
                 (timeAdd (GetTimeFromTS ts) (wrap64 (lease s - Millisecond)))
    then ResultUnknown else ResultSucc.
Proof.
  intros Hs Hl Hv.
  destruct (Update_fields s ts old new changed Hs) as (Hs' & Hl' & Hv' & He').
  rewrite Check_fresh; [by rewrite He'|done|congruence|lia].
Qed.

(** *** [Stop], [Restart], [Reset] and [Update] together *)

Lemma Update_stopped s ts old new ids :
  isStarted s = false -> Update s ts old new ids = s.
Proof. intros Hs. unfold Validator.Update. by rewrite Hs. Qed.

(** X6: a stopped validator ignores every [Update]: after [Stop] and
    any run of updates the state is the one that [Stop] left, so a
    [Restart] finds version 0 and no deltas. *)
Theorem Updates_ignored_after_Stop s (us : list updateCall) :
  runUpdates (Stop s) us = Stop s /\
  latestSchemaVer (Restart (runUpdates (Stop s) us)) = 0 /\
  deltaSchemaInfos (Restart (runUpdates (Stop s) us)) = [].
Proof.
  assert (runUpdates (Stop s) us = Stop s) as ->; [|done].
  induction us as [|u us IH]; [done|].
  unfold Validator.runUpdates in *. cbn [foldl]. by rewrite Update_stopped.
Qed.

(** X8: [Reset] is [Stop] followed by [Restart]; a second [Stop] or
    [Reset] changes nothing, and [Stop] and [Reset] forget an earlier
    [Reset] or [Stop]. *)
Theorem Reset_is_Stop_then_Restart s :
  Reset s = Restart (Stop s) /\
  Stop (Stop s) = Stop s /\ Reset (Reset s) = Reset s /\
  Stop (Reset s) = Stop s /\ Reset (Stop s) = Reset s /\
  Restart (Reset s) = Reset s.
Proof. by repeat split. Qed.

(** *** Invariants of the validator's state *)

Lemma call_keeps_invariant (leaseTime : Z) s (c : validatorCall) :
  ((length (deltaSchemaInfos s) <= maxNumberOfDiffsToLoad)%nat /\ lease s = leaseTime /\
   (isStarted s = false -> latestSchemaVer s = 0 /\ deltaSchemaInfos s = [])) ->
  (length (deltaSchemaInfos (call s c)) <= maxNumberOfDiffsToLoad)%nat /\
  lease (call s c) = leaseTime /\
  (isStarted (call s c) = false ->
     latestSchemaVer (call s c) = 0 /\ deltaSchemaInfos (call s c) = []).
Proof.
  intros (Hlen & Hlease & Hstopped).
  destruct c as [u| | |]; cbn [ValidatorCalls.call].
  - destruct (isStarted s) eqn:Hs.
    + split; [|split].
      * rewrite Update_deltas by done.
        destruct (_ =? _); [done|apply length_lastn].
      * by rewrite Update_lease.
      * rewrite Update_started, Hs. done.
    + rewrite (Update_stopped _ _ _ _ _ Hs). auto.
  - split; [simpl; lia|]. split; [done|]. by intros _.
  - split; [done|]. split; [done|]. by intros ?.
  - split; [simpl; lia|]. split; [done|]. by intros ?.
Qed.

(** X7: whatever calls ([Update], [Stop], [Restart], [Reset]) a new
    validator receives, its delta queue never holds more than
    [maxNumberOfDiffsToLoad] entries, its lease is the one it was made
    with, and whenever it is stopped it holds version 0 and no deltas. *)
Theorem calls_keep_invariant (leaseTime : Z) (cs : list validatorCall) :
  let s := runCalls (NewSchemaValidator leaseTime) cs in
  (length (deltaSchemaInfos s) <= maxNumberOfDiffsToLoad)%nat /\
  lease s = leaseTime /\
  (isStarted s = false -> latestSchemaVer s = 0 /\ deltaSchemaInfos s = []).
Proof.
  cbv zeta.
  assert (forall s0,
    ((length (deltaSchemaInfos s0) <= maxNumberOfDiffsToLoad)%nat /\ lease s0 = leaseTime /\
     (isStarted s0 = false -> latestSchemaVer s0 = 0 /\ deltaSchemaInfos s0 = [])) ->
    (length (deltaSchemaInfos (runCalls s0 cs)) <= maxNumberOfDiffsToLoad)%nat /\
    lease (runCalls s0 cs) = leaseTime /\
    (isStarted (runCalls s0 cs) = false ->
       latestSchemaVer (runCalls s0 cs) = 0 /\ deltaSchemaInfos (runCalls s0 cs) = [])) as Hrun.
  { induction cs as [|c cs IH]; intros s0 Hinv; [done|].
    unfold ValidatorCalls.runCalls in *. cbn [foldl].
    apply IH. by apply call_keeps_invariant. }
  apply Hrun. split; [simpl; lia|]. split; [done|]. by intros ?.
Qed.

(** *** Updates in the order of the versions *)

Lemma appended_elem_of (us : list updateCall) d :
  d ∈ appended us -> exists u, u ∈ us /\ schemaVersion d = u_currVer u.
Proof.
  unfold appended. rewrite list_elem_of_omap. intros (u & Hu & Hd).
  exists u. split; [done|].
  destruct (_ =? _); [done|]. by inversion Hd.
Qed.

Lemma appended_sorted (us : list updateCall) :
  updates_ordered us ->
  StronglySorted (fun d e => schemaVersion d <= schemaVersion e) (appended us).
Proof.
  unfold updates_ordered. induction 1 as [|u us Hsorted IH Hu]; [constructor|].
  unfold appended in *. cbn [omap list_omap].
  destruct (u_currVer u =? u_oldVer u); [done|]. cbn.
  constructor; [done|].
  apply Forall_forall. intros d Hd.
  apply appended_elem_of in Hd as (v & Hv & ->).
  rewrite Forall_forall in Hu. by apply Hu.
Qed.

Lemma sorted_versions_ascending q :
  StronglySorted (fun d e => schemaVersion d <= schemaVersion e) q -> versions_ascending q.
Proof.
  induction 1 as [|a q Hsorted IH Ha]; intros i j d e Hij Hi Hj.
  - by rewrite lookup_nil in Hi.
  - destruct i as [|i], j as [|j]; simpl in *; try lia.
    + by simplify_eq.
    + simplify_eq. rewrite Forall_forall in Ha. apply Ha.
      by eapply list_elem_of_lookup_2.
    + apply (IH i j); [lia|done|done].
Qed.

Lemma runUpdates_started s (us : list updateCall) :
  isStarted (runUpdates s us) = isStarted s /\ lease (runUpdates s us) = lease s.
Proof.
  revert s. induction us as [|u us IH]; intros s; [done|].
  unfold Validator.runUpdates in *. cbn [foldl].
  destruct (IH (Update s (u_leaseGrantTS u) (u_oldVer u) (u_currVer u) (u_changedTableIDs u)))
    as [-> ->].
  by rewrite Update_started, Update_lease.
Qed.

(** X3: when a new validator is updated with versions that never
    decrease, the versions of its delta queue never decrease, and a
    [Check] at a version older than the latest fails exactly when it
    names no table, or every delta is newer than its version, or a table
    it names appears in some delta that is newer than its version. *)
Theorem Check_after_ordered_updates (leaseTime : Z) (us : list updateCall) :
  updates_ordered us ->
  let s := runUpdates (NewSchemaValidator leaseTime) us in
  versions_ascending (deltaSchemaInfos s) /\
  forall txnTS schemaVer ids,
    leaseTime <> 0 -> schemaVer < latestSchemaVer s ->
    (Check s txnTS schemaVer ids = ResultFail <->
       ids = [] \/
       Forall (fun d => schemaVer < schemaVersion d) (deltaSchemaInfos s) \/
       exists d, d ∈ deltaSchemaInfos s /\ schemaVer < schemaVersion d /\ touches ids d).
Proof.
  intros Hordered s.
  assert (versions_ascending (deltaSchemaInfos s)) as Hasc.
  { unfold s. rewrite runUpdates_deltas; [|done|simpl; lia].
    apply sorted_versions_ascending. cbn [deltaSchemaInfos NewSchemaValidator app].
    unfold lastn.
    apply appended_sorted in Hordered.
    rewrite <- (take_drop (length (appended us) - maxNumberOfDiffsToLoad) (appended us))
      in Hordered.
    by apply StronglySorted_app_1_r in Hordered. }
  split; [done|].
  intros txnTS schemaVer ids Hlease Hver.
  destruct (runUpdates_started (NewSchemaValidator leaseTime) us) as [Hs Hl].
  apply Check_stale_ascending; [done|done| |done].
  fold s in Hl. by rewrite Hl.
Qed.

End ValidatorMore.

(** ** More of the DDL worker *)

Section WorkerMore.
Import Model Meta DDL DDLSpec WorkerSpec Ticker.
Context `{KVStore} `{DDLEnv}.

Implicit Types (job cur dep : Job) (jobs : list Job) (t : Meta) (e : error).

(** *** [chooseLeaseTime] and the ticker of [start] *)

(** X9: [chooseLeaseTime] never returns more than its second argument;
    it returns a positive time when the first is not negative and the
    second is positive; and it returns the first argument exactly when
    that one is at most the second and is not a zero to be replaced. *)
Theorem chooseLeaseTime_bounds (t max : Z) :
  chooseLeaseTime t max <= max /\
  (0 <= t -> 0 < max -> 0 < chooseLeaseTime t max) /\
  (chooseLeaseTime t max = t <-> t <= max /\ (t = 0 -> max = 0)).
Proof.
  unfold chooseLeaseTime.
  destruct (Z.eqb_spec t 0) as [->|Hne]; cbn [orb].
  - split; [lia|]. split; [lia|]. split; [intros ->; lia|intros [? Hz]; by rewrite Hz].
  - destruct (Z.ltb_spec max t); lia.
Qed.

(** X10: with a lease that is not negative (and whose double is an
    [int64]) the period of the worker's ticker is positive and at most
    one second: twice the lease when that is between zero and a second,
    and one second for a zero lease or a longer one. *)
Theorem start_checkTime_bounds (d : ddlCtx) :
  0 <= lease d < 2 ^ 62 ->
  0 < start_checkTime d <= 1 * Second /\
  start_checkTime d =
    if (lease d =? 0) || (1 * Second <? 2 * lease d) then 1 * Second else 2 * lease d.
Proof.
  intros Hlease. unfold start_checkTime, chooseLeaseTime.
  rewrite wrap64_id by (unfold int64_range; lia).
  replace (2 * lease d =? 0) with (lease d =? 0)
    by (destruct (Z.eqb_spec (lease d) 0), (Z.eqb_spec (2 * lease d) 0); lia).
  destruct (Z.eqb_spec (lease d) 0); cbn [orb]; [done|].
  destruct (Z.ltb_spec (1 * Second) (2 * lease d)); [done|]. split; [lia|done].
Qed.

(** *** [buildJobDependence] on any snapshot *)

Lemma buildJobDependence_loop_error skipped job rest cur e :
  Forall (passedBy cur) skipped ->
  ID job <= ID cur -> IsDependentOn cur job = Err e ->
  buildJobDependence_loop (skipped ++ job :: rest) cur = (cur, Some e).
Proof.
  intros Hskip Hle Hdep. induction Hskip as [|j skipped Hj _ IH]; simpl.
  - destruct (Z.ltb_spec (ID cur) (ID job)); [lia|]. by rewrite Hdep.
  - destruct Hj as [Hnew|Hno].
    + destruct (Z.ltb_spec (ID cur) (ID j)); [done|lia].
    + destruct (Z.ltb_spec (ID cur) (ID j)); [done|]. by rewrite Hno.
Qed.

Lemma buildJobDependence_loop_cases jobs cur :
  (exists skipped dep rest,
     jobs = skipped ++ dep :: rest /\ Forall (passedBy cur) skipped /\
     ID dep <= ID cur /\ IsDependentOn cur dep = Ok true /\
     buildJobDependence_loop jobs cur = (set_DependencyID cur (ID dep), None)) \/
  (Forall (passedBy cur) jobs /\ buildJobDependence_loop jobs cur = (cur, None)) \/
  (exists skipped job rest e,
     jobs = skipped ++ job :: rest /\ Forall (passedBy cur) skipped /\
     ID job <= ID cur /\ IsDependentOn cur job = Err e /\
     buildJobDependence_loop jobs cur = (cur, Some e)).
Proof.
  induction jobs as [|job jobs IH]; [right; left; by split|].
  assert (passedBy cur job ->
          buildJobDependence_loop (job :: jobs) cur = buildJobDependence_loop jobs cur) as Hpass.
  { intros [Hnew|Hno]; simpl.
    - destruct (Z.ltb_spec (ID cur) (ID job)); [done|lia].
    - destruct (Z.ltb_spec (ID cur) (ID job)); [done|]. by rewrite Hno. }
  assert (passedBy cur job \/
          (ID job <= ID cur /\
           (IsDependentOn cur job = Ok true \/ exists e, IsDependentOn cur job = Err e)))
    as [Hp|(Hle & [Hdep|[e He]])].
  { destruct (Z.lt_ge_cases (ID cur) (ID job)); [left; by left|].
    destruct (IsDependentOn cur job) as [[|]|e] eqn:Hd; [|left; by right|].
    - right. split; [lia|by left].
    - right. split; [lia|right; by exists e]. }
  - rewrite (Hpass Hp).
    destruct IH as [(skipped & dep & rest & -> & Hs & Hle & Hd & Hr)|
                    [(Hall & Hr)|(skipped & j & rest & e & -> & Hs & Hle & He & Hr)]].
    + left. exists (job :: skipped), dep, rest. by repeat split; [constructor|..].
    + right. left. split; [by constructor|done].
    + right. right. exists (job :: skipped), j, rest, e. by repeat split; [constructor|..].
  - left. exists [], job, jobs. repeat split; try done.
    by apply (buildJobDependence_loop_first [] job jobs cur).
  - right. right. exists [], job, jobs, e. repeat split; try done.
    by apply (buildJobDependence_loop_error [] job jobs cur e).
Qed.

Lemma buildJobDependence_cases t cur :
  match GetAllDDLJobsInQueue t (otherQueue (JobType cur)) with
  | Err e => buildJobDependence t cur = (cur, Some e)
  | Ok jobs =>
      (exists skipped dep rest,
         jobs = skipped ++ dep :: rest /\ Forall (passedBy cur) skipped /\
         ID dep <= ID cur /\ IsDependentOn cur dep = Ok true /\
         buildJobDependence t cur = (set_DependencyID cur (ID dep), None)) \/
      (Forall (passedBy cur) jobs /\ buildJobDependence t cur = (cur, None)) \/
      (exists skipped job rest e,
         jobs = skipped ++ job :: rest /\ Forall (passedBy cur) skipped /\
         ID job <= ID cur /\ IsDependentOn cur job = Err e /\
         buildJobDependence t cur = (cur, Some e))
  end.
Proof.
  rewrite buildJobDependence_otherQueue.
  destruct (GetAllDDLJobsInQueue t (otherQueue (JobType cur))) as [jobs|e]; [|done].
  apply buildJobDependence_loop_cases.
Qed.

(** X11: on any snapshot of the other queue, [buildJobDependence] stops
    at the first job of the snapshot that is not newer than the current
    job and whose dependency check does not say no: it sets
    [DependencyID] to that job's ID when the current job depends on it,
    and returns the check's error, with the job unchanged, when the
    check fails; when it passes by every job it leaves the job
    unchanged.  An error of the snapshot itself is returned with the job
    unchanged. *)
Theorem buildJobDependence_first_match t cur :
  match GetAllDDLJobsInQueue t (otherQueue (JobType cur)) with
  | Err e => buildJobDependence t cur = (cur, Some e)
  | Ok jobs =>
      (exists skipped dep rest,
         jobs = skipped ++ dep :: rest /\ Forall (passedBy cur) skipped /\
         ID dep <= ID cur /\ IsDependentOn cur dep = Ok true /\
         buildJobDependence t cur = (set_DependencyID cur (ID dep), None)) \/
      (Forall (passedBy cur) jobs /\ buildJobDependence t cur = (cur, None)) \/
      (exists skipped job rest e,
         jobs = skipped ++ job :: rest /\ Forall (passedBy cur) skipped /\
         ID job <= ID cur /\ IsDependentOn cur job = Err e /\
         buildJobDependence t cur = (cur, Some e))
  end.
Proof. apply buildJobDependence_cases. Qed.

(** *** [isDependencyJobDone] *)

(** X12: [isDependencyJobDone] answers yes only for a job that has no
    dependency or whose dependency has a history record, and then the
    job leaves with its [DependencyID] cleared, so that every later call
    answers yes without reading the history; it answers no, with the job
    unchanged, exactly when the history has no record of the dependency;
    and an error of the history read is returned with the job
    unchanged. *)
Theorem isDependencyJobDone_cases t job :
  match isDependencyJobDone t job with
  | (job', Ok true) =>
      job' = set_DependencyID job noneDependencyJob /\
      (DependencyID job = noneDependencyJob \/
       (kvErr OpGetHistoryDDLJob (txn t) = None /\
        is_Some (historyJobs (txn t) !! DependencyID job))) /\
      forall t', isDependencyJobDone t' job' = (job', Ok true)
  | (job', Ok false) =>
      job' = job /\ DependencyID job <> noneDependencyJob /\
      kvErr OpGetHistoryDDLJob (txn t) = None /\
      historyJobs (txn t) !! DependencyID job = None
  | (job', Err e) =>
      job' = job /\ DependencyID job <> noneDependencyJob /\
      kvErr OpGetHistoryDDLJob (txn t) = Some e
  end.
Proof.
  unfold isDependencyJobDone, GetHistoryDDLJob.
  destruct (Z.eqb_spec (DependencyID job) noneDependencyJob) as [Hnone|Hdep].
  - split; [destruct job; simpl in *; by subst|]. split; [by left|].
    intros t'. by rewrite (proj2 (Z.eqb_eq _ _) Hnone).
  - destruct (kvErr OpGetHistoryDDLJob (txn t)) as [e|] eqn:Hkv; [done|].
    destruct (historyJobs (txn t) !! DependencyID job) as [dep|] eqn:Hhist; [|done].
    split; [done|]. split; [right; split; [done|by exists dep]|]. by intros t'.
Qed.

(** *** [finishDDLJob], [deleteRange] and [finishRecoverTable] *)

(** What [finishDDLJob] leaves: with no error, the job with the
    transaction's start timestamp as its finish timestamp, the queue
    without its head, and the job in the history; with an error, the
    history as it was. *)
Lemma finishDDLJob_record w t job :
  match finishDDLJob w t job with
  | (job', t', None) =>
      job' = set_BinlogInfo job (mkHistoryInfo (Payload (BinlogInfo job)) (metaStartTS t)) /\
      jobListKey t' = jobListKey t /\ metaStartTS t' = metaStartTS t /\
      jobList (jobListKey t) (txn t') = drop 1 (jobList (jobListKey t) (txn t)) /\
      historyJobs (txn t') = <[ID job := job']> (historyJobs (txn t))
  | (_, t', Some _) => historyJobs (txn t') = historyJobs (txn t)
  end.
Proof.
  unfold finishDDLJob.
  match goal with |- context [match ?x with Some e => (job, t, Some e) | None => _ end] =>
    destruct x as [e|] end; [done|].
  unfold DeQueueDDLJob.
  destruct (kvErr OpDeQueueDDLJob (txn t)); [done|].
  destruct (jobList (jobListKey t) (txn t)) as [|head rest] eqn:Hq.
  - unfold AddHistoryDDLJob. destruct (kvErr OpAddHistoryDDLJob (txn t)); [done|].
    cbn [txn set_txn jobListKey metaStartTS]. by repeat split.
  - unfold AddHistoryDDLJob. cbn [txn set_txn].
    destruct (kvErr OpAddHistoryDDLJob _);
      cbn [txn set_txn jobListKey metaStartTS]; [by rewrite historyJobs_set_jobList|].
    repeat split; try done.
    + destruct (jobListKey t); simpl in *; done.
    + by rewrite historyJobs_set_jobList.
Qed.

(** X13: a job that needs the delete-range manager (a rolled back
    add-index job, or a job that drops or truncates), that is not
    cancelled and whose version is newer than the package's, is not
    finished: [finishDDLJob] returns [errInvalidJobVersion] and leaves
    the job, the queue and the history as they were, without asking the
    delete-range manager. *)
Theorem finishDDLJob_rejects_newer_version w t job :
  IsCancelled job = false -> needsDeleteRange job = true ->
  currentVersion < Version job ->
  finishDDLJob w t job = (job, t, Some (errInvalidJobVersion (Version job) currentVersion)).
Proof.
  intros Hcan Hneeds Hver. unfold finishDDLJob, needsDeleteRange, deleteRange in *.
  rewrite Hcan. cbn [negb].
  destruct (Z.leb_spec (Version job) currentVersion); [lia|].
  destruct (JobType job); try discriminate; try done.
  by rewrite Hneeds.
Qed.

(** X14: a cancelled job is finished without the delete-range manager,
    whatever its type and version; only a recover-table job still
    re-enables the garbage collection first.  So when the job is not a
    recover-table job and the store takes the two writes, the head job
    leaves the queue and the job is in the history with the
    transaction's start timestamp as its finish timestamp. *)
Theorem finishDDLJob_cancelled w t job :
  IsCancelled job = true -> JobType job <> ActionRecoverTable ->
  kvErr OpDeQueueDDLJob (txn t) = None ->
  (forall s, historyJobs s = historyJobs (txn t) -> kvErr OpAddHistoryDDLJob s = None) ->
  exists t',
    let job' := set_BinlogInfo job (mkHistoryInfo (Payload (BinlogInfo job)) (metaStartTS t)) in
    finishDDLJob w t job = (job', t', None) /\
    jobList (jobListKey t) (txn t') = drop 1 (jobList (jobListKey t) (txn t)) /\
    historyJobs (txn t') !! ID job = Some job' /\
    FinishedTS (BinlogInfo job') = metaStartTS t.
Proof.
  intros Hcan Htype Hdq Hadd.
  pose proof (finishDDLJob_record w t job) as Hrec.
  assert (exists t', finishDDLJob w t job =
            (set_BinlogInfo job (mkHistoryInfo (Payload (BinlogInfo job)) (metaStartTS t)),
             t', None)) as [t' Heq].
  { clear Hrec. unfold finishDDLJob. rewrite Hcan. cbn [negb].
    assert (match JobType job with
            | ActionRecoverTable => finishRecoverTable w t job
            | _ => None
            end = None) as -> by (by destruct (JobType job)).
    unfold DeQueueDDLJob. rewrite Hdq.
    destruct (jobList (jobListKey t) (txn t)) as [|head rest];
      unfold AddHistoryDDLJob; cbn [txn set_txn metaStartTS].
    - rewrite (Hadd _ eq_refl). by eexists.
    - rewrite (Hadd _ (historyJobs_set_jobList _ _ _)). by eexists. }
  exists t'. rewrite Heq in Hrec |- *. destruct Hrec as (_ & _ & _ & Hq & Hh).
  split; [done|]. split; [done|]. split; [|done].
  rewrite Hh. apply lookup_insert_eq.
Qed.

(** X15: finishing a job satisfies the jobs that wait for it.  After
    [finishDDLJob] returns no error for a job, [isDependencyJobDone], in
    a transaction that sees the history that [finishDDLJob] left and can
    read it, answers yes for every job whose [DependencyID] is the
    finished job's ID, and clears that [DependencyID]. *)
Theorem finish_then_dependency_done w t job job' t' t2 waiting :
  finishDDLJob w t job = (job', t', None) ->
  DependencyID waiting = ID job ->
  historyJobs (txn t2) = historyJobs (txn t') ->
  kvErr OpGetHistoryDDLJob (txn t2) = None ->
  isDependencyJobDone t2 waiting = (set_DependencyID waiting noneDependencyJob, Ok true).
Proof.
  intros Hfin Hdep Hsee Hkv.
  pose proof (finishDDLJob_record w t job) as Hrec. rewrite Hfin in Hrec.
  destruct Hrec as (_ & _ & _ & _ & Hh).
  unfold isDependencyJobDone, GetHistoryDDLJob.
  destruct (Z.eqb_spec (DependencyID waiting) noneDependencyJob) as [Hnone|_].
  - destruct waiting; simpl in *. by rewrite Hnone.
  - by rewrite Hkv, Hsee, Hh, Hdep, lookup_insert_eq.
Qed.

(** *** [handleUpdateJobError] and [updateDDLJob] *)

(** X16: [handleUpdateJobError] passes on no error and every error
    other than [kv.ErrEntryTooLarge] with the job and the transaction
    unchanged.  For [kv.ErrEntryTooLarge] it finishes the job as
    cancelled: when that succeeds the history holds the job under its
    own ID with the state cancelled, the schema state none, the error
    recorded and the change-log payload dropped, and the head of the
    queue is gone; when it fails the history is as it was. *)
Theorem handleUpdateJobError_too_large w t job :
  handleUpdateJobError w t job None = (job, t, None) /\
  (forall e, e <> ErrEntryTooLarge -> handleUpdateJobError w t job (Some e) = (job, t, Some e)) /\
  handleUpdateJobError w t job (Some ErrEntryTooLarge) = finishDDLJob w t (cancelledTooLarge job) /\
  match handleUpdateJobError w t job (Some ErrEntryTooLarge) with
  | (job', t', None) =>
      ID job' = ID job /\ State job' = JobStateCancelled /\ SchemaState job' = StateNone /\
      Error job' = Some ErrEntryTooLarge /\ Payload (BinlogInfo job') = [] /\
      FinishedTS (BinlogInfo job') = metaStartTS t /\
      historyJobs (txn t') !! ID job = Some job' /\
      jobList (jobListKey t) (txn t') = drop 1 (jobList (jobListKey t) (txn t))
  | (_, t', Some _) => historyJobs (txn t') = historyJobs (txn t)
  end.
Proof.
  split; [done|]. split.
  { intros e He. unfold handleUpdateJobError. by rewrite bool_decide_false. }
  assert (handleUpdateJobError w t job (Some ErrEntryTooLarge)
          = finishDDLJob w t (cancelledTooLarge job)) as Heq.
  { unfold handleUpdateJobError. by rewrite bool_decide_true. }
  split; [done|]. rewrite Heq.
  pose proof (finishDDLJob_record w t (cancelledTooLarge job)) as Hrec.
  destruct (finishDDLJob w t (cancelledTooLarge job)) as [[job' t'] [e|]]; [done|].
  destruct Hrec as (-> & _ & _ & Hq & Hh).
  repeat split; try done.
  rewrite Hh. apply lookup_insert_eq.
Qed.

(** X17: [updateDDLJob] keeps the serialized arguments of the job that
    it writes exactly when an error was met and the job has serialized
    arguments that were never decoded; in every other case it serializes
    the arguments again.  In both cases, when the store takes the write,
    only the head of the queue changes; and an empty queue is an error
    that leaves the transaction as it was. *)
Theorem updateDDLJob_raw_args t job meetErr :
  kvErr OpUpdateDDLJob (txn t) = None ->
  let keeps := meetErr && bool_decide (RawArgs job <> None) && bool_decide (Args job = None) in
  let stored := if keeps then job else remarshalled job in
  match jobList (jobListKey t) (txn t) with
  | [] => exists e, updateDDLJob t job meetErr = (t, Some e)
  | head :: rest =>
      updateDDLJob t job meetErr =
        (set_txn t (set_jobList (jobListKey t) (txn t) (stored :: rest)), None)
  end.
Proof.
  intros Hkv keeps stored. unfold updateDDLJob, UpdateDDLJob. rewrite Hkv.
  destruct (jobList (jobListKey t) (txn t)) as [|head rest]; cbn [length].
  - rewrite bool_decide_false by lia. by eexists.
  - rewrite bool_decide_true by lia. unfold stored, keeps, remarshalled.
    by destruct meetErr, (bool_decide (RawArgs job <> None)), (bool_decide (Args job = None)).
Qed.

(** *** [runDDLJob] *)

Lemma set_State_started job (st : JobState) : set_State (started job) st = set_State job st.
Proof. unfold started. by destruct (_ && _). Qed.

(** X18: a job of a type that [runDDLJob] does not know, and that is
    neither finished nor being cancelled, is cancelled as invalid: no
    step function runs, the transaction stays as it is, the job's state
    becomes cancelled, [errInvalidDDLJob] is saved in it and its error
    count is incremented; and [runDDLJob] returns no error and version
    0. *)
Theorem runDDLJob_invalid_type w d t job (code : Z) :
  JobType job = ActionOther code ->
  IsFinished job = false -> IsCancelling job = false ->
  runDDLJob w d t job =
    Returned (set_ErrorCount
                (set_Error (set_State job JobStateCancelled)
                           (Some (errInvalidDDLJob (ActionOther code))))
                (wrap64 (ErrorCount job + 1)))
             t 0 None.
Proof.
  intros Htype Hfin Hcan. unfold runDDLJob. fold (started job). rewrite Hfin, Hcan.
  unfold runDDLJob_switch. rewrite started_JobType, Htype, set_State_started.
  by rewrite bool_decide_true.
Qed.

(** X19: [runDDLJob] returns an error only as the error of the job's
    rollback conversion (for a job that is being cancelled) or of the
    step of the job's type; in the second case the job it leaves is not
    cancelled, carries the error as a [*terror.Error] and has the error
    count of the step's job plus one.  So it never returns an error
    together with a cancelled job that it has marked itself. *)
Theorem runDDLJob_error_not_cancelled w d t job job' t' ver e :
  runDDLJob w d t job = Returned job' t' ver (Some e) ->
  IsFinished job = false /\
  ((IsCancelling job = true /\ convertJob2RollbackJob d t job = Returned job' t' ver (Some e)) \/
   (IsCancelling job = false /\ State job' <> JobStateCancelled /\
    Error job' = Some (toTError e) /\ isTError (toTError e) = true /\
    exists job1, runDDLJob_switch d t (started job) = Returned job1 t' ver (Some e) /\
                 ErrorCount job' = wrap64 (ErrorCount job1 + 1))).
Proof.
  unfold runDDLJob. fold (started job).
  destruct (IsFinished job); [done|]. intros Hrun. split; [done|].
  destruct (IsCancelling job); [by left|]. right. split; [done|].
  destruct (runDDLJob_switch d t (started job)) as [job1 t1 ver1 [e1|]|job1 t1]; [|done..].
  case_bool_decide as Hst; [done|].
  assert (isTError (toTError e1) = true) as Hterr by (unfold toTError; by destruct e1).
  destruct (_ && _ && _); inversion Hrun; subst; cbn in *; by eauto 10.
Qed.

(** *** [waitSchemaChanged] and [waitSchemaSynced] *)

Lemma waitable_negb job :
  negb (IsRunning job) && negb (IsRollingback job) && negb (IsDone job)
  && negb (IsRollbackDone job) = negb (waitable job).
Proof.
  unfold waitable.
  by destruct (IsRunning job), (IsRollingback job), (IsDone job), (IsRollbackDone job).
Qed.


(** X21: [waitSchemaSynced] does nothing for a job that is not running,
    rolling back, done or rollback done.  For any other job it makes
    one timeout context of the wait time, also when the wait time is
    zero, and asks for the global version; it makes no second context;
    and it goes on only when the version was obtained and neither the
    version nor the wait time is zero, and then first publishes that
    version. *)
Theorem waitSchemaSynced_one_context d job waitTime :
  (waitable job = false -> waitSchemaSynced d job waitTime = []) /\
  (waitable job = true ->
     exists rest,
       waitSchemaSynced d job waitTime =
         EvContextWithTimeout waitTime :: EvMustGetGlobalVersion :: rest /\
       (forall tmo : Z, EvContextWithTimeout tmo ∉ rest) /\
       (rest <> [] ->
          waitTime <> 0 /\
          exists v, MustGetGlobalVersion = Ok v /\ v <> 0 /\
                    head rest = Some (EvOwnerUpdateGlobalVersion v))).
Proof.
  unfold waitSchemaSynced. rewrite waitable_negb.
  split; [by intros ->|]. intros Hw. rewrite Hw. cbn [negb app].
  eexists. split; [reflexivity|].
  assert (forall tmo : Z, EvContextWithTimeout tmo ∉ @nil Event) as Hnil.
  { intros tmo Hin. by apply elem_of_nil in Hin. }
  destruct MustGetGlobalVersion as [v|e]; [|by split].
  unfold waitSchemaChanged. rewrite waitable_negb, Hw. cbn [negb app].
  destruct (Z.eqb_spec waitTime 0) as [Hz|Hz]; [by split|].
  destruct (Z.eqb_spec v 0) as [Hv|Hv]; [by split|].
  case_bool_decide as Hup;
    [|destruct (OwnerCheckAllVersions v) as [e|]; [case_bool_decide|]];
    cbn [app];
    (split;
     [intros tmo Hin;
      repeat (apply elem_of_cons in Hin as [Hin|Hin]; [discriminate|]);
      by apply elem_of_nil in Hin
     |intros _; split; [done|]; by exists v]).
Qed.

(** *** Iterations of [handleDDLJobQueue] *)

(** X22: an iteration of [handleDDLJobQueue] with the quit channel
    closed, or on a server that is not the owner, or on an empty queue
    does nothing: the store, the loop state and the version are as they
    were, nothing is done outside the store, and the function
    returns. *)
Theorem idle_iteration w d st store quit owner startTS :
  quit = true \/ owner = false \/ jobList (workerQueue w) store = [] ->
  let out := handleDDLJobQueue_iter w d st store quit owner startTS in
  it_store out = store /\ it_state out = st /\ it_events out = [] /\
  it_schemaVer out = 0 /\ it_job out = None /\ is_Some (it_return out).
Proof.
  intros Hidle out. unfold out, handleDDLJobQueue_iter.
  destruct quit; [by repeat split|].
  assert (mkLoopState (once st) (waitDependencyJobCnt st) = st) as Hst by by destruct st.
  unfold RunInNewTxn, handleDDLJobQueue_txn.
  destruct owner; cbn [negb].
  - destruct Hidle as [?|[?|Hq]]; [done..|].
    rewrite newMetaWithQueueTp_worker. unfold getFirstDDLJob, GetDDLJobByIdx.
    cbn [txn NewMeta jobListKey]. rewrite Hq. cbn [lookup list_lookup].
    destruct (kvErr OpGetDDLJobByIdx store); [cbn; rewrite Hst; by repeat split|].
    destruct (kvErr OpCommit store); cbn; rewrite Hst; by repeat split.
  - destruct (kvErr OpCommit store); cbn; rewrite Hst; by repeat split.
Qed.

(** X23: the first iteration of [handleDDLJobQueue] (the one that finds
    [once] set) runs no step and finishes no job: the store is as it
    was and no version is produced.  It clears [once] only as the owner
    with a job at the head of its queue. *)
Theorem first_iteration_only_syncs w d st store quit owner startTS :
  once st = true ->
  let out := handleDDLJobQueue_iter w d st store quit owner startTS in
  it_store out = store /\ it_schemaVer out = 0 /\
  (once (it_state out) = false ->
     quit = false /\ owner = true /\
     exists head rest, jobList (workerQueue w) store = head :: rest).
Proof.
  intros Honce out. unfold out, handleDDLJobQueue_iter.
  destruct quit; [cbn; rewrite Honce; by repeat split|].
  unfold RunInNewTxn, handleDDLJobQueue_txn. rewrite Honce.
  destruct owner; cbn [negb]; [|by destruct (kvErr OpCommit store)].
  rewrite newMetaWithQueueTp_worker. unfold getFirstDDLJob, GetDDLJobByIdx.
  cbn [txn NewMeta jobListKey].
  destruct (kvErr OpGetDDLJobByIdx store); [done|].
  destruct (jobList (workerQueue w) store) as [|head rest]; cbn [lookup list_lookup];
    [by destruct (kvErr OpCommit store)|].
  assert (exists head0 rest0 : _, head :: rest = head0 :: rest0) as Hex by by eexists _, _.
  destruct (isDependencyJobDone _ head) as [job [[|]|e]]; cbn [handleDDLJobQueue_ready txn NewMeta].
  - destruct (kvErr OpCommit store); cbn; [done|].
    by destruct (waitDependencyJobFinished _ _).
  - destruct (kvErr OpCommit store); cbn; [done|].
    by destruct (waitDependencyJobFinished _ _).
  - done.
Qed.

(** X24: while the job that the head job waits for has no history
    record, an iteration leaves the store as it is, also the first one:
    it sleeps for [waitDependencyJobInterval] (200 milliseconds), counts
    the wait, runs no step, waits for no schema change, and goes on to
    the next iteration. *)
Theorem iteration_waits_for_dependency w d st store startTS head rest :
  jobList (workerQueue w) store = head :: rest ->
  DependencyID head <> noneDependencyJob ->
  historyJobs store !! DependencyID head = None ->
  kvErr OpGetDDLJobByIdx store = None -> kvErr OpGetHistoryDDLJob store = None ->
  kvErr OpCommit store = None ->
  let out := handleDDLJobQueue_iter w d st store false true startTS in
  let job := OnJobUpdated head in
  it_store out = store /\ it_return out = None /\ it_schemaVer out = 0 /\
  it_job out = Some job /\
  it_state out = mkLoopState (once st) (wrap64 (waitDependencyJobCnt st + 1)) /\
  it_events out =
    EvSleep waitDependencyJobInterval
      :: (if IsSynced job || IsCancelled job then [EvNotifyDDLJobDone] else []) /\
  waitDependencyJobInterval = 200 * Millisecond.
Proof.
  intros Hq Hdep Hhist Hget Hread Hcommit out job.
  unfold out, handleDDLJobQueue_iter, RunInNewTxn, handleDDLJobQueue_txn. cbn [negb].
  rewrite newMetaWithQueueTp_worker. unfold getFirstDDLJob, GetDDLJobByIdx.
  cbn [txn NewMeta jobListKey]. rewrite Hget, Hq. cbn [lookup list_lookup].
  unfold isDependencyJobDone, GetHistoryDDLJob. cbn [txn NewMeta].
  destruct (Z.eqb_spec (DependencyID head) noneDependencyJob); [done|].
  rewrite Hread, Hhist, Hcommit. cbn [o_runJobErr o_job o_events o_schemaVer o_once app].
  unfold waitDependencyJobFinished.
  destruct (Z.eqb_spec (DependencyID head) noneDependencyJob); [done|]. cbn [negb].
  rewrite (waitSchemaChanged_skips None d _ 0 (OnJobUpdated head)) by auto.
  by repeat split.
Qed.

(** X25: when the step of a job panics, the job is not lost: its state
    is set to cancelling and it is written back at the head of the
    queue, with no version and no error for the loop; and the next
    [runDDLJob] of the stored job is its rollback conversion. *)
Theorem panic_cancels_job w d (first : bool) snapshot t job job1 t1 head rest :
  runDDLJob w d t (OnJobRunBefore job) = Panicked job1 t1 ->
  kvErr OpUpdateDDLJob (txn t1) = None ->
  jobList (jobListKey t1) (txn t1) = head :: rest ->
  exists out stored,
    handleDDLJobQueue_run w d first snapshot t job =
      (out, set_jobList (jobListKey t1) (txn t1) (stored :: rest), None) /\
    o_job out = Some (set_State job1 JobStateCancelling) /\
    o_schemaVer out = 0 /\ o_runJobErr out = None /\ o_events out = [] /\
    ID stored = ID job1 /\ State stored = JobStateCancelling /\
    forall w' d' t', runDDLJob w' d' t' stored = convertJob2RollbackJob d' t' stored.
Proof.
  intros Hrun Hkv Hq. unfold handleDDLJobQueue_run. rewrite Hrun.
  unfold handleDDLJobQueue_save, updateDDLJob, UpdateDDLJob.
  change (IsCancelled (set_State job1 JobStateCancelling)) with false. cbv iota.
  rewrite Hkv, Hq. cbn [length]. rewrite bool_decide_true by lia.
  cbn [handleUpdateJobError txn set_txn].
  eexists _, _. split; [reflexivity|].
  cbn [o_job o_schemaVer o_runJobErr o_events].
  split; [done|]. split; [done|]. split; [done|]. split; [done|].
  destruct (_ && _); by repeat split.
Qed.

(** *** [addDDLJob] on failure *)

Lemma buildJobDependence_only_DependencyID t cur :
  exists depID : Z, fst (buildJobDependence t cur) = set_DependencyID cur depID.
Proof.
  assert (cur = set_DependencyID cur (DependencyID cur)) as Hcur by by destruct cur.
  pose proof (buildJobDependence_cases t cur) as Hcases.
  destruct (GetAllDDLJobsInQueue t (otherQueue (JobType cur))) as [jobs|e].
  - destruct Hcases as [(? & dep & ? & _ & _ & _ & _ & ->)|[(_ & ->)|(? & ? & ? & ? & _ & _ & _ & _ & ->)]];
      cbn [fst]; eauto.
  - rewrite Hcases. cbn [fst]. eauto.
Qed.

(** X26: [addDDLJob] works on the caller's job: also when it fails and
    the store is as it was, the job leaves with the package's version
    and the statement text, and, once the ID counter answered, with the
    new ID (which the store then never allocated) and the transaction's
    start timestamp.  When the ID counter fails, its error is returned
    and the start timestamp is not set.  Whatever happens, the job's
    type, schema, table, state and arguments stay as they are. *)
Theorem addDDLJob_stamps_job store startTS (query : string) job :
  let '(job', store', err) := addDDLJob store startTS query job in
  Version job' = currentVersion /\ Query job' = query /\
  JobType job' = JobType job /\ SchemaID job' = SchemaID job /\ TableID job' = TableID job /\
  State job' = State job /\ Args job' = Args job /\ RawArgs job' = RawArgs job /\
  match kvErr OpGenGlobalID store with
  | Some e => err = Some e /\ store' = store /\ StartTS job' = StartTS job
  | None =>
      ID job' = nextGlobalID store + 1 /\ StartTS job' = startTS /\
      (err <> None -> store' = store /\ nextGlobalID store' <> ID job')
  end.
Proof.
  unfold addDDLJob, RunInNewTxn, addDDLJob_txn.
  rewrite newMetaWithQueueTp_action.
  unfold GenGlobalID. cbn [txn NewMeta].
  destruct (kvErr OpGenGlobalID store) as [e|]; [by repeat split|].
  cbn [txn set_txn metaStartTS jobListKey].
  match goal with
  | |- context [buildJobDependence ?t0 ?j0] =>
      destruct (buildJobDependence_only_DependencyID t0 j0) as [dep Hdep];
      destruct (buildJobDependence t0 j0) as [job' [e|]]
  end; cbn [fst] in Hdep; subst job'.
  - repeat split; try done. cbn. lia.
  - unfold EnQueueDDLJob. cbn [txn NewMeta jobListKey].
    destruct (kvErr OpEnQueueDDLJob _) as [e|]; cbn [txn set_txn].
    + repeat split; try done. cbn. lia.
    + destruct (kvErr OpCommit _) as [e|]; repeat split; try done. cbn. lia.
Qed.

End WorkerMore.

(** ** The alter algorithm *)

Section AlgorithmProps.
Import Algorithm.

Lemma getProperAlgorithm_loop_elem (specify : ast_AlterAlgorithm) (l : list ast_AlterAlgorithm) :
  getProperAlgorithm_loop specify l = true <-> specify ∈ l.
Proof.
  induction l as [|a l IH]; simpl.
  - split; [done|]. intros Hin. by apply elem_of_nil in Hin.
  - rewrite elem_of_cons. case_bool_decide as Heq; [split; auto|].
    rewrite IH. split; [auto|]. by intros [?|?].
Qed.

(** X27: [getProperAlgorithm] returns no error exactly when the
    algorithm asked for is the default one, and then the answer is the
    action's default algorithm, or is among the supported ones, and
    then the answer is the algorithm asked for.  Otherwise it returns
    [ErrAlterOperationNotSupported], naming the algorithm asked for and
    the action's default algorithm, together with that default
    algorithm. *)
Theorem getProperAlgorithm_cases (specify : ast_AlterAlgorithm) (algorithm : AlterAlgorithm) :
  match getProperAlgorithm specify algorithm with
  | (a, None) =>
      (specify = AlterAlgorithmDefault /\ a = defAlgorithm algorithm) \/
      (specify <> AlterAlgorithmDefault /\ specify ∈ supported algorithm /\ a = specify)
  | (a, Some err) =>
      specify <> AlterAlgorithmDefault /\ ~ specify ∈ supported algorithm /\
      a = defAlgorithm algorithm /\
      err = ErrAlterOperationNotSupported specify (defAlgorithm algorithm)
  end.
Proof.
  unfold getProperAlgorithm. case_bool_decide as Hdef; [by left|].
  destruct (getProperAlgorithm_loop specify (supported algorithm)) eqn:Hloop.
  - right. by rewrite <- getProperAlgorithm_loop_elem.
  - split; [done|]. split; [|done].
    rewrite <- getProperAlgorithm_loop_elem. by rewrite Hloop.
Qed.

(** X28: the algorithm that [ResolveAlterAlgorithm] returns depends
    only on the alter action, not on the algorithm asked for: inplace
    for adding a constraint and instant for every other action, also
    when it returns an error.  It returns an error exactly when the
    algorithm asked for is neither the default one nor the action's
    own; and resolving again with the algorithm it returned never
    fails. *)
Theorem ResolveAlterAlgorithm_by_action (alterSpec : AlterTableSpec) (specify : ast_AlterAlgorithm) :
  let action :=
    match Tp alterSpec with
    | AlterTableAddConstraint => AlterAlgorithmInplace
    | AlterTableOther _ => AlterAlgorithmInstant
    end in
  fst (ResolveAlterAlgorithm alterSpec specify) = action /\
  (snd (ResolveAlterAlgorithm alterSpec specify) = None <->
     specify = AlterAlgorithmDefault \/ specify = action) /\
  (snd (ResolveAlterAlgorithm alterSpec specify) <> None ->
     snd (ResolveAlterAlgorithm alterSpec specify) =
       Some (ErrAlterOperationNotSupported specify action)) /\
  ResolveAlterAlgorithm alterSpec (fst (ResolveAlterAlgorithm alterSpec specify)) = (action, None).
Proof.
  unfold ResolveAlterAlgorithm.
  destruct (Tp alterSpec) as [|code]; destruct specify as [| | |other]; cbn;
    repeat split; try done; try (by auto); try (by intros [?|?]).
Qed.

End AlgorithmProps.

(** ** More concrete runs *)

Section ValidatorMoreRuns.
Import Validator ValidatorCalls Samples MoreSamples.
#[local] Existing Instance ZTime.

(** [Check_after_ordered_updates] on three updates to the versions 2, 5
    and 9. *)
Lemma Check_after_ordered_updates_witness :
  updates_ordered orderedUpdates /\
  let s := runUpdates 100 (NewSchemaValidator (10 * Second)) orderedUpdates in
  versions_ascending (deltaSchemaInfos s) /\
  forall txnTS schemaVer ids,
    10 * Second <> 0 -> schemaVer < latestSchemaVer s ->
    (Check s txnTS schemaVer ids = ResultFail <->
       ids = [] \/
       Forall (fun d => schemaVer < schemaVersion d) (deltaSchemaInfos s) \/
       exists d, d ∈ deltaSchemaInfos s /\ schemaVer < schemaVersion d /\ touches ids d).
Proof.
  assert (updates_ordered orderedUpdates) as Hord.
  { unfold updates_ordered, orderedUpdates. repeat constructor; vm_compute; discriminate. }
  split; [exact Hord|].
  exact (Check_after_ordered_updates 100 (10 * Second) orderedUpdates Hord).
Defined.

(** [Update_then_Check_fails] on an update from version 1 to 5 that
    changes the tables 1 and 2: a check at version 3 for table 1
    fails. *)
Lemma Update_then_Check_fails_witness :
  let s := NewSchemaValidator (10 * Second) in
  isStarted s = true /\ lease s <> 0 /\ 5 <> 1 /\ 3 < 5 /\
  ([1] = [] \/ exists t, t ∈ [1] /\ t ∈ [1; 2]) /\
  Check (Update 100 s 0 1 5 [1; 2]) 0 3 [1] = ResultFail.
Proof.
  cbv zeta.
  assert (lease (NewSchemaValidator (10 * Second)) <> 0) as Hlease by (vm_compute; discriminate).
  assert (5 <> 1) as Hne by lia.
  assert (3 < 5) as Hlt by lia.
  assert ([1] = [] \/ exists t, t ∈ [1] /\ t ∈ [1; 2]) as Hids.
  { right. exists 1. split; apply list_elem_of_here. }
  split; [reflexivity|]. split; [exact Hlease|]. split; [exact Hne|]. split; [exact Hlt|].
  split; [exact Hids|].
  exact (Update_then_Check_fails 100 (NewSchemaValidator (10 * Second)) 0 1 5 [1; 2] 0 3 [1]
           eq_refl Hlease Hne Hlt Hids).
Defined.

(** [Update_then_Check_fresh] on the same update: a check at version 7
    does not look at the tables and succeeds within the lease. *)
Lemma Update_then_Check_fresh_witness :
  let s := NewSchemaValidator (10 * Second) in
  isStarted s = true /\ lease s <> 0 /\ 5 <= 7 /\
  Check (Update 100 s 0 1 5 [1; 2]) 0 7 [9] =
    if timeAfter (GetTimeFromTS 0) (timeAdd (GetTimeFromTS 0) (wrap64 (lease s - Millisecond)))
    then ResultUnknown else ResultSucc.
Proof.
  cbv zeta.
  assert (lease (NewSchemaValidator (10 * Second)) <> 0) as Hlease by (vm_compute; discriminate).
  assert (5 <= 7) as Hle by lia.
  split; [reflexivity|]. split; [exact Hlease|]. split; [exact Hle|].
  exact (Update_then_Check_fresh 100 (NewSchemaValidator (10 * Second)) 0 1 5 [1; 2] 0 7 [9]
           eq_refl Hlease Hle).
Defined.

End ValidatorMoreRuns.

Section WorkerMoreRuns.
Import Model Meta DDL DDLSpec WorkerSpec Ticker Samples MoreSamples.

(** [start_checkTime_bounds] with a lease of 100 milliseconds: the
    ticker's period is 200 milliseconds. *)
Lemma start_checkTime_bounds_witness :
  let d := mkDdlCtx (100 * Millisecond) in
  0 <= lease d < 2 ^ 62 /\
  start_checkTime d = 200 * Millisecond /\
  (0 < start_checkTime d <= 1 * Second /\
   start_checkTime d =
     if (lease d =? 0) || (1 * Second <? 2 * lease d) then 1 * Second else 2 * lease d).
Proof.
  cbv zeta.
  assert (0 <= lease (mkDdlCtx (100 * Millisecond)) < 2 ^ 62) as Hlease.
  { split; vm_compute; [discriminate|reflexivity]. }
  split; [exact Hlease|]. split; [vm_compute; reflexivity|].
  exact (start_checkTime_bounds (mkDdlCtx (100 * Millisecond)) Hlease).
Defined.

(** [finishDDLJob_rejects_newer_version] on a drop-table job of version
    2, with a package of version 1. *)
Lemma finishDDLJob_rejects_newer_version_witness :
  let t := NewMeta doneAtHead 5 DefaultJobListKey in
  IsCancelled newerDropJob = false /\ needsDeleteRange newerDropJob = true /\
  @currentVersion (sampleEnv idleStep) < Version newerDropJob /\
  @finishDDLJob (sampleKV false) (sampleEnv idleStep) generalW t newerDropJob =
    (newerDropJob, t, Some (errInvalidJobVersion 2 1)).
Proof.
  cbv zeta.
  assert (@currentVersion (sampleEnv idleStep) < Version newerDropJob) as Hver by reflexivity.
  split; [reflexivity|]. split; [reflexivity|]. split; [exact Hver|].
  exact (@finishDDLJob_rejects_newer_version (sampleKV false) (sampleEnv idleStep) generalW
           (NewMeta doneAtHead 5 DefaultJobListKey) newerDropJob eq_refl eq_refl Hver).
Defined.

(** [finishDDLJob_cancelled] on the same job once it is cancelled: its
    version no longer matters. *)
Lemma finishDDLJob_cancelled_witness :
  let t := NewMeta doneAtHead 5 DefaultJobListKey in
  let job := set_State newerDropJob JobStateCancelled in
  IsCancelled job = true /\ JobType job <> ActionRecoverTable /\
  @kvErr (sampleKV false) OpDeQueueDDLJob (txn t) = None /\
  (forall s, historyJobs s = historyJobs (txn t) ->
             @kvErr (sampleKV false) OpAddHistoryDDLJob s = None) /\
  exists t',
    let job' := set_BinlogInfo job (mkHistoryInfo (Payload (BinlogInfo job)) (metaStartTS t)) in
    @finishDDLJob (sampleKV false) (sampleEnv idleStep) generalW t job = (job', t', None) /\
    jobList (jobListKey t) (txn t') = drop 1 (jobList (jobListKey t) (txn t)) /\
    historyJobs (txn t') !! ID job = Some job' /\
    FinishedTS (BinlogInfo job') = metaStartTS t.
Proof.
  cbv zeta.
  assert (JobType (set_State newerDropJob JobStateCancelled) <> ActionRecoverTable) as Htype
    by discriminate.
  split; [reflexivity|]. split; [exact Htype|]. split; [reflexivity|].
  split; [intros s _; reflexivity|].
  exact (@finishDDLJob_cancelled (sampleKV false) (sampleEnv idleStep) generalW
           (NewMeta doneAtHead 5 DefaultJobListKey)
           (set_State newerDropJob JobStateCancelled) eq_refl Htype eq_refl
           (fun _ _ => eq_refl)).
Defined.

(** [finish_then_dependency_done]: once job 1 is finished, the
    add-index job that waits for it is free to run. *)
Lemma finish_then_dependency_done_witness :
  let t := NewMeta doneAtHead 5 DefaultJobListKey in
  let finished := set_BinlogInfo doneJob (mkHistoryInfo [] 5) in
  let t' := mkMeta (mkStore 4 1 ∅ [job2] [] (<[1 := finished]> ∅)) DefaultJobListKey 5 in
  @finishDDLJob (sampleKV false) (sampleEnv idleStep) generalW t doneJob = (finished, t', None) /\
  DependencyID waitingJob = ID doneJob /\
  @kvErr (sampleKV false) OpGetHistoryDDLJob (txn t') = None /\
  @isDependencyJobDone (sampleKV false) t' waitingJob
    = (set_DependencyID waitingJob noneDependencyJob, Ok true).
Proof.
  cbv zeta.
  assert (@finishDDLJob (sampleKV false) (sampleEnv idleStep) generalW
            (NewMeta doneAtHead 5 DefaultJobListKey) doneJob
          = (set_BinlogInfo doneJob (mkHistoryInfo [] 5),
             mkMeta (mkStore 4 1 ∅ [job2] []
                       (<[1 := set_BinlogInfo doneJob (mkHistoryInfo [] 5)]> ∅))
                    DefaultJobListKey 5, None)) as Hfin by reflexivity.
  split; [exact Hfin|]. split; [reflexivity|]. split; [reflexivity|].
  exact (@finish_then_dependency_done (sampleKV false) (sampleEnv idleStep) generalW
           _ _ _ _ _ waitingJob Hfin eq_refl eq_refl eq_refl).
Defined.

(** [updateDDLJob_raw_args] on a job whose arguments were never
    decoded, after an error: the stored job keeps its serialized
    arguments. *)
Lemma updateDDLJob_raw_args_witness :
  let t := NewMeta undecodedAtHead 5 DefaultJobListKey in
  @kvErr (sampleKV false) OpUpdateDDLJob (txn t) = None /\
  @updateDDLJob (sampleKV false) t undecodedJob true =
    (set_txn t (set_jobList DefaultJobListKey (txn t) [undecodedJob]), None) /\
  @updateDDLJob (sampleKV false) t undecodedJob false =
    (set_txn t (set_jobList DefaultJobListKey (txn t)
                  [@remarshalled (sampleKV false) undecodedJob]), None).
Proof.
  cbv zeta. split; [reflexivity|]. split.
  - exact (@updateDDLJob_raw_args (sampleKV false)
             (NewMeta undecodedAtHead 5 DefaultJobListKey) undecodedJob true eq_refl).
  - reflexivity.
Defined.

(** [runDDLJob_invalid_type] on a job of the unknown type 99. *)
Lemma runDDLJob_invalid_type_witness :
  let t := NewMeta twoJobs 5 DefaultJobListKey in
  JobType unknownJob = ActionOther 99 /\
  IsFinished unknownJob = false /\ IsCancelling unknownJob = false /\
  @runDDLJob (sampleEnv idleStep) generalW (mkDdlCtx Second) t unknownJob =
    Returned (set_ErrorCount
                (set_Error (set_State unknownJob JobStateCancelled)
                           (Some (errInvalidDDLJob (ActionOther 99))))
                (wrap64 (ErrorCount unknownJob + 1)))
             t 0 None.
Proof.
  cbv zeta. split; [reflexivity|]. split; [reflexivity|]. split; [reflexivity|].
  exact (@runDDLJob_invalid_type (sampleEnv idleStep) generalW (mkDdlCtx Second)
           (NewMeta twoJobs 5 DefaultJobListKey) unknownJob 99 eq_refl eq_refl eq_refl).
Defined.

(** [runDDLJob_error_not_cancelled] on a running job whose step
    fails. *)
Lemma runDDLJob_error_not_cancelled_witness :
  let t := NewMeta twoJobs 5 DefaultJobListKey in
  let d := mkDdlCtx Second in
  let job' := set_ErrorCount (set_Error job1 (Some (ErrTerror 7))) 1 in
  @runDDLJob (sampleEnv failingStep) generalW d t job1 = Returned job' t 0 (Some (ErrTerror 7)) /\
  IsFinished job1 = false /\
  ((IsCancelling job1 = true /\
    @convertJob2RollbackJob (sampleEnv failingStep) d t job1
      = Returned job' t 0 (Some (ErrTerror 7))) \/
   (IsCancelling job1 = false /\ State job' <> JobStateCancelled /\
    Error job' = Some (toTError (ErrTerror 7)) /\ isTError (toTError (ErrTerror 7)) = true /\
    exists job0,
      @runDDLJob_switch (sampleEnv failingStep) d t (started job1)
        = Returned job0 t 0 (Some (ErrTerror 7)) /\
      ErrorCount job' = wrap64 (ErrorCount job0 + 1))).
Proof.
  cbv zeta.
  assert (@runDDLJob (sampleEnv failingStep) generalW (mkDdlCtx Second)
            (NewMeta twoJobs 5 DefaultJobListKey) job1
          = Returned (set_ErrorCount (set_Error job1 (Some (ErrTerror 7))) 1)
                     (NewMeta twoJobs 5 DefaultJobListKey) 0 (Some (ErrTerror 7))) as Hrun
    by reflexivity.
  split; [exact Hrun|].
  exact (@runDDLJob_error_not_cancelled (sampleEnv failingStep) generalW (mkDdlCtx Second)
           _ _ _ _ _ _ Hrun).
Defined.

(** [idle_iteration] on a server that is not the owner. *)
Lemma idle_iteration_witness :
  let out :=
    @handleDDLJobQueue_iter (sampleKV false) (sampleEnv bumpStep) generalW (mkDdlCtx Second)
      running twoJobs false false 5 in
  (false = true \/ false = false \/ jobList (workerQueue generalW) twoJobs = []) /\
  (it_store out = twoJobs /\ it_state out = running /\ it_events out = [] /\
   it_schemaVer out = 0 /\ it_job out = None /\ is_Some (it_return out)).
Proof.
  cbv zeta.
  assert (false = true \/ false = false \/ jobList (workerQueue generalW) twoJobs = [])
    as Hidle by (right; left; reflexivity).
  split; [exact Hidle|].
  exact (@idle_iteration (sampleKV false) (sampleEnv bumpStep) generalW (mkDdlCtx Second)
           running twoJobs false false 5 Hidle).
Defined.

(** [first_iteration_only_syncs] on a queue whose head job is done: the
    first iteration does not finish it. *)
Lemma first_iteration_only_syncs_witness :
  let out :=
    @handleDDLJobQueue_iter (sampleKV false) (sampleEnv bumpStep) generalW (mkDdlCtx Second)
      firstTime doneAtHead false true 5 in
  once firstTime = true /\
  once (it_state out) = false /\
  (it_store out = doneAtHead /\ it_schemaVer out = 0 /\
   (once (it_state out) = false ->
      false = false /\ true = true /\
      exists head rest, jobList (workerQueue generalW) doneAtHead = head :: rest)).
Proof.
  cbv zeta. split; [reflexivity|]. split; [reflexivity|].
  exact (@first_iteration_only_syncs (sampleKV false) (sampleEnv bumpStep) generalW
           (mkDdlCtx Second) firstTime doneAtHead false true 5 eq_refl).
Defined.

(** [iteration_waits_for_dependency] on an add-index job that waits for
    job 1, which is still queued. *)
Lemma iteration_waits_for_dependency_witness :
  let out :=
    @handleDDLJobQueue_iter (sampleKV false) (sampleEnv bumpStep) addIdxW (mkDdlCtx Second)
      running oneWaiting false true 5 in
  let job := @OnJobUpdated (sampleEnv bumpStep) waitingJob in
  jobList (workerQueue addIdxW) oneWaiting = waitingJob :: [] /\
  DependencyID waitingJob <> noneDependencyJob /\
  historyJobs oneWaiting !! DependencyID waitingJob = None /\
  (it_store out = oneWaiting /\ it_return out = None /\ it_schemaVer out = 0 /\
   it_job out = Some job /\
   it_state out = mkLoopState (once running) (wrap64 (waitDependencyJobCnt running + 1)) /\
   it_events out =
     EvSleep waitDependencyJobInterval
       :: (if IsSynced job || IsCancelled job then [EvNotifyDDLJobDone] else []) /\
   waitDependencyJobInterval = 200 * Millisecond).
Proof.
  cbv zeta.
  assert (DependencyID waitingJob <> noneDependencyJob) as Hdep by discriminate.
  split; [reflexivity|]. split; [exact Hdep|]. split; [reflexivity|].
  exact (@iteration_waits_for_dependency (sampleKV false) (sampleEnv bumpStep) addIdxW
           (mkDdlCtx Second) running oneWaiting 5 waitingJob [] eq_refl Hdep eq_refl
           eq_refl eq_refl eq_refl).
Defined.

(** [panic_cancels_job] on a running job whose step panics. *)
Lemma panic_cancels_job_witness :
  let t := NewMeta twoJobs 5 DefaultJobListKey in
  let d := mkDdlCtx Second in
  @runDDLJob (sampleEnv panickingStep) generalW d t
    (@OnJobRunBefore (sampleEnv panickingStep) job1) = Panicked job1 t /\
  @kvErr (sampleKV false) OpUpdateDDLJob (txn t) = None /\
  jobList (jobListKey t) (txn t) = job1 :: [job2] /\
  exists out stored,
    @handleDDLJobQueue_run (sampleKV false) (sampleEnv panickingStep) generalW d false twoJobs
      t job1 = (out, set_jobList (jobListKey t) (txn t) (stored :: [job2]), None) /\
    o_job out = Some (set_State job1 JobStateCancelling) /\
    o_schemaVer out = 0 /\ o_runJobErr out = None /\ o_events out = [] /\
    ID stored = ID job1 /\ State stored = JobStateCancelling /\
    forall w' d' t',
      @runDDLJob (sampleEnv panickingStep) w' d' t' stored
      = @convertJob2RollbackJob (sampleEnv panickingStep) d' t' stored.
Proof.
  cbv zeta. split; [reflexivity|]. split; [reflexivity|]. split; [reflexivity|].
  exact (@panic_cancels_job (sampleKV false) (sampleEnv panickingStep) generalW
           (mkDdlCtx Second) false twoJobs (NewMeta twoJobs 5 DefaultJobListKey) job1 job1
           (NewMeta twoJobs 5 DefaultJobListKey) job1 [job2] eq_refl eq_refl eq_refl).
Defined.

End WorkerMoreRuns.
